(** * Speakofy: the ingestion and retrieval pipeline of [parental_control.py]

    A shallow embedding of the helper functions and of the two Streamlit
    pages of [parental_control.py], with the properties of the upload,
    storage, selection and question-answering path.

    - Python [str] values are lists of Unicode code points.
    - The SQLite database is a record of two tables, each a list of rows in
      rowid order, together with the [sqlite_sequence] counters that
      [AUTOINCREMENT] maintains.
    - [st.session_state] is a record; the messages written by [st.error],
      [st.warning], [st.success] and [st.write] are returned as a list.
    - The hosted language model is a script of outcomes, consumed one per
      call, and a log of the prompts it was sent. *)

From Stdlib Require Import ZArith NArith List String Ascii Bool Lia.
From Stdlib Require Import Sorted.
Import ListNotations.

Local Open Scope Z_scope.

(* ------------------------------------------------------------------ *)
(** ** Python strings *)

Module PyStr.

Definition char := N.
Definition str := list char.

(** A source literal (all literals of the modelled code are ASCII). *)
Definition lit (s : string) : str :=
  List.map N_of_ascii (list_ascii_of_string s).

Fixpoint eqb (a b : str) : bool :=
  match a, b with
  | [], [] => true
  | x :: a', y :: b' => N.eqb x y && eqb a' b'
  | _, _ => false
  end.

(** [bool(s)]: a string is true when it is not empty. *)
Definition truthy (s : str) : bool :=
  match s with [] => false | _ :: _ => true end.

(** [bool(v)] for a value that is [None] or a string. *)
Definition truthy_opt (v : option str) : bool :=
  match v with None => false | Some s => truthy s end.

(** [c.isspace()]: the code points CPython lists as whitespace. *)
Definition isspace (c : char) : bool :=
  ((9 <=? c) && (c <=? 13) || (28 <=? c) && (c <=? 32)
   || (c =? 133) || (c =? 160) || (c =? 5760)
   || (8192 <=? c) && (c <=? 8202)
   || (c =? 8232) || (c =? 8233) || (c =? 8239) || (c =? 8287)
   || (c =? 12288))%N.

Fixpoint lstrip (s : str) : str :=
  match s with
  | [] => []
  | c :: t => if isspace c then lstrip t else s
  end.

(** A character is dropped when it is whitespace and everything after it
    has been dropped. *)
Fixpoint rstrip (s : str) : str :=
  match s with
  | [] => []
  | c :: t =>
      match rstrip t with
      | [] => if isspace c then [] else [c]
      | r => c :: r
      end
  end.

(** [s.strip()] *)
Definition strip (s : str) : str := rstrip (lstrip s).

(** [sep.join(parts)] *)
Fixpoint join (sep : str) (parts : list str) : str :=
  match parts with
  | [] => []
  | [p] => p
  | p :: ps => p ++ sep ++ join sep ps
  end.

Definition newline : str := lit (String (ascii_of_nat 10) EmptyString).

End PyStr.

Import PyStr.

(* ------------------------------------------------------------------ *)
(** ** PDF text extraction *)

(** What [PdfReader(file).pages] offers to the extractor: for each page, in
    page order, the value of [page.extract_text()], a string or [None]. *)
Definition pdf := list (option str).

(** The body of the [for] loop of [extract_pdf_text]. *)
Definition extract_page (text : str) (pg : option str) : str :=
  match pg with
  | Some p => if truthy p then text ++ (p ++ newline) else text
  | None => text
  end.

Definition extract_pdf_text (file : pdf) : str :=
  strip (fold_left extract_page file []).

(** The pages the loop keeps: those whose extracted text is true. *)
Fixpoint kept_pages (file : pdf) : list str :=
  match file with
  | [] => []
  | Some p :: rest => if truthy p then p :: kept_pages rest else kept_pages rest
  | None :: rest => kept_pages rest
  end.

(** A page that yields text, as the loop tests it. *)
Definition text_bearing (pg : option str) : Prop := truthy_opt pg = true.

(** A page whose text has a character that is not whitespace. *)
Definition has_visible (pg : option str) : Prop :=
  exists p c, pg = Some p /\ In c p /\ isspace c = false.

(* ------------------------------------------------------------------ *)
(** ** Dates and the age gate *)

(** A [datetime.date]. *)
Record date := mkdate { year : Z; month : Z; day : Z }.

(** [(a1, a2) < (b1, b2)] on tuples of integers. *)
Definition tuple_lt (a b : Z * Z) : bool :=
  (fst a <? fst b) || ((fst a =? fst b) && (snd a <? snd b)).

(** [calculate_age]; [today] is the value of [datetime.date.today()]. *)
Definition calculate_age (today dob : date) : Z :=
  year today - year dob
  - (if tuple_lt (month today, day today) (month dob, day dob) then 1 else 0).

Definition digit (n : Z) : char := Z.to_N (48 + n mod 10).

(** [str(d)]: the ISO form [YYYY-MM-DD]. *)
Definition date_str (d : date) : str :=
  [digit (year d / 1000); digit (year d / 100); digit (year d / 10);
   digit (year d)] ++ lit "-" ++
  [digit (month d / 10); digit (month d)] ++ lit "-" ++
  [digit (day d / 10); digit (day d)].

(** Calendar order, used to say what an age means. *)
Definition date_le (a b : date) : Prop :=
  year a < year b \/
  (year a = year b /\
   (month a < month b \/ (month a = month b /\ day a <= day b))).

(** The day on which the person born on [dob] completes [k] years. *)
Definition birthday (dob : date) (k : Z) : date :=
  mkdate (year dob + k) (month dob) (day dob).

(* ------------------------------------------------------------------ *)
(** ** The database *)

(** A row of [users]. *)
Record user_row := mkuser {
  u_id : Z; u_name : str; u_email : str; u_password : str; u_dob : str }.

(** A row of [files]; [user_id] is a nullable column. *)
Record file_row := mkfile {
  f_id : Z; f_user_id : option Z; f_filename : str; f_content : str }.

(** Both tables, rows in rowid order, and the [sqlite_sequence] entries. *)
Record database := mkdb {
  users : list user_row; users_seq : Z;
  files : list file_row; files_seq : Z }.

Definition empty_db : database := mkdb [] 0 [] 0.

Definition max_rowid (ids : list Z) : Z := fold_right Z.max 0 ids.

(** [INTEGER PRIMARY KEY AUTOINCREMENT]: one more than the largest rowid
    the table holds or has ever held. *)
Definition next_rowid (seq : Z) (ids : list Z) : Z :=
  Z.max seq (max_rowid ids) + 1.

(** SQL [a = b] in a [WHERE] or [ON] clause: never true on [NULL]. *)
Definition sql_eq (a b : option Z) : bool :=
  match a, b with
  | Some x, Some y => x =? y
  | _, _ => false
  end.

Definition email_taken (db : database) (email : str) : bool :=
  existsb (fun u => eqb (u_email u) email) (users db).

(** [add_user]; [None] is the [sqlite3.IntegrityError] of the [UNIQUE]
    constraint on [email]. *)
Definition add_user (db : database) (name email password dob : str)
  : option database :=
  if email_taken db email then None
  else
    let id := next_rowid (users_seq db) (map u_id (users db)) in
    Some (mkdb (users db ++ [mkuser id name email password dob]) id
               (files db) (files_seq db)).

(** [get_user]: the first row with this email and password. *)
Definition get_user (db : database) (email password : str) : option user_row :=
  find (fun u => eqb (u_email u) email && eqb (u_password u) password)
       (users db).

(** [user_exists]: the row [(1,)] or [None]. *)
Definition user_exists (db : database) (email : str) : option Z :=
  if email_taken db email then Some 1 else None.

(** The [INSERT] of [save_file], with the rowid SQLite assigns. *)
Definition insert_file (db : database) (user_id : option Z)
  (filename content : str) : database * Z :=
  let id := next_rowid (files_seq db) (map f_id (files db)) in
  (mkdb (users db) (users_seq db)
        (files db ++ [mkfile id user_id filename content]) id, id).

(** [save_file] (it returns [None]; the store is what changes). *)
Definition save_file (db : database) (user_id : option Z)
  (filename content : str) : database :=
  fst (insert_file db user_id filename content).

(** [ORDER BY key DESC]. *)
Fixpoint insert_desc {A : Type} (key : A -> Z) (x : A) (l : list A) : list A :=
  match l with
  | [] => [x]
  | y :: l' => if key y <? key x then x :: l else y :: insert_desc key x l'
  end.

Fixpoint order_by_desc {A : Type} (key : A -> Z) (l : list A) : list A :=
  match l with
  | [] => []
  | x :: l' => insert_desc key x (order_by_desc key l')
  end.

(** [get_user_last_file_content] *)
Definition get_user_last_file_content (db : database) (user_id : option Z)
  : option str :=
  match order_by_desc f_id
          (filter (fun f => sql_eq (f_user_id f) user_id) (files db)) with
  | [] => None
  | row :: _ => Some (f_content row)
  end.

(** A row of the result of [get_all_files]. *)
Record listing := mklisting {
  l_fid : Z; l_fname : str; l_uid : option Z; l_uname : option str }.

(** [files f LEFT JOIN users u ON u.id = f.user_id], for one file. *)
Definition left_join (us : list user_row) (f : file_row) : list listing :=
  match filter (fun u => sql_eq (Some (u_id u)) (f_user_id f)) us with
  | [] => [mklisting (f_id f) (f_filename f) None None]
  | ms =>
      map (fun u => mklisting (f_id f) (f_filename f)
                      (Some (u_id u)) (Some (u_name u))) ms
  end.

Definition get_all_files (db : database) : list listing :=
  order_by_desc l_fid (flat_map (left_join (users db)) (files db)).

(** [get_file_content_by_id] *)
Definition get_file_content_by_id (db : database) (file_id : Z) : option str :=
  match filter (fun f => f_id f =? file_id) (files db) with
  | [] => None
  | row :: _ => Some (f_content row)
  end.

(* ------------------------------------------------------------------ *)
(** ** Python dictionaries keyed by strings *)

Module PyDict.

(** Items in insertion order, one per key. *)
Definition dict (V : Type) := list (str * V).

(** [d[k] = v]: an existing key keeps its place and takes the new value; a
    new key goes to the end. *)
Fixpoint set {V : Type} (k : str) (v : V) (d : dict V) : dict V :=
  match d with
  | [] => [(k, v)]
  | (k', v') :: d' =>
      if eqb k' k then (k', v) :: d' else (k', v') :: set k v d'
  end.

(** [d[k]]; [None] stands for [KeyError]. *)
Fixpoint get {V : Type} (k : str) (d : dict V) : option V :=
  match d with
  | [] => None
  | (k', v') :: d' => if eqb k' k then Some v' else get k d'
  end.

(** [list(d.keys())] *)
Definition keys {V : Type} (d : dict V) : list str := map fst d.

(** [for (k, v) in items: d[k] = v] *)
Definition fill {V : Type} (items : list (str * V)) (d : dict V) : dict V :=
  fold_left (fun d kv => set (fst kv) (snd kv) d) items d.

(** [{k: v for (k, v) in items}] *)
Definition comprehension {V : Type} (items : list (str * V)) : dict V :=
  fill items [].

End PyDict.

(* ------------------------------------------------------------------ *)
(** ** Session state, messages and the hosted model *)

(** The four keys of [st.session_state] the script sets up. *)
Record session := mksession {
  logged_in : bool;
  user_id : option Z;
  name : str;
  book_content : option str }.

Definition fresh_session : session := mksession false None [] None.

Definition set_book_content (s : session) (v : option str) : session :=
  mksession (logged_in s) (user_id s) (name s) v.

Inductive exn :=
| IntegrityError
| KeyError (key : str).

(** What a run of the script shows. *)
Inductive message :=
| Success (text : str)
| Error (text : str)
| Warning (text : str)
| Written (parts : list str)
| Raised (e : exn).

(** What one call of [model.generate_content(prompt)] followed by
    [response.text] comes to: a text, or an exception with its [str]. *)
Inductive outcome :=
| Responds (text : str)
| Fails (detail : str).

(** The hosted model: how it reacts to a prompt after the prompts already
    sent, and the prompts sent so far. *)
Record llm := mkllm {
  respond : list str -> str -> outcome;
  sent : list str }.

Definition generate_content (m : llm) (prompt : str) : outcome * llm :=
  (respond m (sent m) prompt, mkllm (respond m) (sent m ++ [prompt])).

(* ------------------------------------------------------------------ *)
(** ** The two pages *)

(** The [Login] button. *)
Definition login_block (db : database) (s : session) (email password : str)
  : session * list message :=
  match get_user db email password with
  | Some user =>
      (mksession true (Some (u_id user)) (u_name user)
         (get_user_last_file_content db (Some (u_id user))),
       [Success (lit "Welcome " ++ u_name user ++ lit "!")])
  | None => (s, [Error (lit "Invalid credentials")])
  end.

(** The [Signup] button. *)
Definition signup_block (db : database) (name email_s password_s
  confirm_password : str) (dob today : date) : database * list message :=
  let age := calculate_age today dob in
  if age <? 25 then (db, [Error (lit "You must be 25+ years old.")])
  else if negb (eqb password_s confirm_password)
  then (db, [Error (lit "Passwords do not match.")])
  else
    match user_exists db email_s with
    | Some _ => (db, [Error (lit "Email already registered.")])
    | None =>
        match add_user db name email_s password_s (date_str dob) with
        | Some db' =>
            (db', [Success (lit "Registration successful! Please log in.")])
        | None => (db, [Raised IntegrityError])
        end
    end.

(** The [Upload PDF] button, with a file chosen. *)
Definition upload_block (db : database) (s : session) (filename : str)
  (uploaded_file : pdf) : database * session * list message :=
  let text := extract_pdf_text uploaded_file in
  if negb (truthy text)
  then (db, s,
        [Error (lit "Couldn't extract text from this PDF. Try another file.")])
  else
    (save_file db (user_id s) filename text,
     set_book_content s (Some text),
     [Success (filename ++ lit " uploaded and learned successfully!")]).

(** The display name of a listed file. *)
Definition label (fname : str) (uname : option str) : str :=
  fname ++ lit " (by "
  ++ match uname with
     | Some n => if truthy n then n else lit "Unknown"
     | None => lit "Unknown"
     end
  ++ lit ")".

(** The dictionary [options] of the Q&A page. *)
Definition options (all_files : list listing) : PyDict.dict Z :=
  PyDict.comprehension
    (map (fun r => (label (l_fname r) (l_uname r), l_fid r)) all_files).

(** Loading the selected book: the cache is written only when the store
    gave a true content; the flag tells whether the page goes on. *)
Definition load_selected (db : database) (s : session) (selected_file_id : Z)
  : session * option str * list message :=
  let content := get_file_content_by_id db selected_file_id in
  let s' := if truthy_opt content then set_book_content s content else s in
  if negb (truthy_opt content)
  then (s', None,
        [Warning (lit "Could not load the selected book. "
                  ++ lit "Try another one or upload a new PDF.")])
  else (s', content, []).

Definition instruction : str :=
  lit "You are a helpful tutor. Answer ONLY using the following book content. "
  ++ lit "If the answer isn't present, say you don't know."
  ++ newline ++ newline.

(** The prompt of the [Get Answer] button. *)
Definition prompt (content question : str) : str :=
  instruction
  ++ (lit "BOOK CONTENT:" ++ newline ++ content ++ newline ++ newline)
  ++ (lit "QUESTION:" ++ newline ++ question ++ newline ++ newline)
  ++ lit "ANSWER:".

(** The [Get Answer] button: one call, inside [try]. *)
Definition answer_block (m : llm) (content question : str)
  : llm * list message :=
  match generate_content m (prompt content question) with
  | (Responds text, m') => (m', [Written [lit "**Answer:**"; text]])
  | (Fails e, m') => (m', [Error (lit "Error: " ++ e)])
  end.

(** The whole application: the store, one session, the hosted model. *)
Record app_state := mkapp {
  app_db : database;
  app_session : session;
  app_llm : llm }.

(** The Q&A page, run with [selected_label] the value of the select box and
    [question] the text asked if [Get Answer] was pressed. *)
Definition qa_page (a : app_state) (selected_label : str) (question : option str)
  : app_state * list message :=
  let db := app_db a in
  if negb (logged_in (app_session a))
  then (a, [Warning (lit "Please log in first from 'Parental Control' page.")])
  else
    let all_files := get_all_files db in
    match all_files with
    | [] => (a, [Warning (lit "No books uploaded yet.")])
    | _ :: _ =>
        match PyDict.get selected_label (options all_files) with
        | None => (a, [Raised (KeyError selected_label)])
        | Some selected_file_id =>
            match load_selected db (app_session a) selected_file_id with
            | (s', None, out) => (mkapp db s' (app_llm a), out)
            | (s', Some content, out) =>
                match question with
                | None => (mkapp db s' (app_llm a), out)
                | Some q =>
                    let (m', out') := answer_block (app_llm a) content q in
                    (mkapp db s' m', out ++ out')
                end
            end
        end
    end.

(** What the user does between two runs of the script. *)
Inductive event :=
| Login (email password : str)
| Signup (name email password confirm_password : str) (dob today : date)
| Upload (filename : str) (uploaded_file : pdf)
| Browse (selected_label : str)
| Ask (selected_label question : str).

(** One run of the script.  The login and signup forms exist only while
    nobody is logged in, the uploader only afterwards. *)
Definition step (a : app_state) (e : event) : app_state * list message :=
  let db := app_db a in
  let s := app_session a in
  match e with
  | Login email password =>
      if logged_in s then (a, [])
      else let (s', out) := login_block db s email password in
           (mkapp db s' (app_llm a), out)
  | Signup name email password confirm_password dob today =>
      if logged_in s then (a, [])
      else let (db', out) :=
             signup_block db name email password confirm_password dob today in
           (mkapp db' s (app_llm a), out)
  | Upload filename uploaded_file =>
      if logged_in s
      then match upload_block db s filename uploaded_file with
           | (db', s', out) => (mkapp db' s' (app_llm a), out)
           end
      else (a, [])
  | Browse selected_label => qa_page a selected_label None
  | Ask selected_label question => qa_page a selected_label (Some question)
  end.

Definition init (m : llm) : app_state := mkapp empty_db fresh_session m.

(** The state after a sequence of events. *)
Definition run (a : app_state) (evs : list event) : app_state :=
  fold_left (fun a e => fst (step a e)) evs a.

(** The states the application can be in. *)
Inductive reachable : app_state -> Prop :=
| reach_init (m : llm) : reachable (init m)
| reach_step (a : app_state) (e : event) :
    reachable a -> reachable (fst (step a e)).

(** Rowids grow along each table. *)
Definition wf_db (db : database) : Prop :=
  StronglySorted Z.lt (map u_id (users db)) /\
  StronglySorted Z.lt (map f_id (files db)).

(** A sequence of [save_file] calls, with the rowid each one was given. *)
Fixpoint save_files (db : database) (calls : list (option Z * str * str))
  : database * list Z :=
  match calls with
  | [] => (db, [])
  | (uid, fname, content) :: rest =>
      let (db1, id) := insert_file db uid fname content in
      let (db2, ids) := save_files db1 rest in
      (db2, id :: ids)
  end.

(** The owner's name the join finds for a file, if any. *)
Definition owner_name (db : database) (f : file_row) : option str :=
  option_map u_name
    (find (fun u => sql_eq (Some (u_id u)) (f_user_id f)) (users db)).

(** The listing of one file. *)
Definition listing_of (db : database) (f : file_row) : listing :=
  mklisting (f_id f) (f_filename f)
    (option_map u_id
       (find (fun u => sql_eq (Some (u_id u)) (f_user_id f)) (users db)))
    (owner_name db f).

(** The display name under which a stored file is offered. *)
Definition label_of (db : database) (f : file_row) : str :=
  label (f_filename f) (owner_name db f).

(** The catalog offered by the select box: labels with the ids they
    resolve to, in the order of [list(options.keys())]. *)
Definition catalog (db : database) : list (str * Z) :=
  options (get_all_files db).

(** The file an owner created last: files are stored in creation order. *)
Definition latest_created (db : database) (owner : Z) : option file_row :=
  hd_error (rev (filter (fun f => sql_eq (f_user_id f) (Some owner))
                   (files db))).

(** The data of a stored row, without its id. *)
Definition file_data (f : file_row) : option Z * str * str :=
  (f_user_id f, f_filename f, f_content f).

(** Number of catalog entries carrying a label. *)
Definition entries_for (l : str) (d : PyDict.dict Z) : nat :=
  List.length (filter (fun kv => eqb (fst kv) l) d).

(* ------------------------------------------------------------------ *)
(** ** A sample session *)

(** A model that refuses the first prompt and would answer a second. *)
Definition flaky_model : llm :=
  mkllm (fun earlier _ =>
           match earlier with
           | [] => Fails (lit "quota exceeded")
           | _ :: _ => Responds (lit "Ishmael")
           end) [].

(** Alice signs up, logs in and uploads a file. *)
Definition one_upload : list event :=
  [Signup (lit "Alice") (lit "alice@example.org") (lit "pw") (lit "pw")
     (mkdate 1990 5 17) (mkdate 2024 3 1);
   Login (lit "alice@example.org") (lit "pw");
   Upload (lit "a.pdf") [Some (lit "Call me Ishmael.")]].

(** She then uploads a second file under the same name. *)
Definition two_uploads : list event :=
  one_upload ++ [Upload (lit "a.pdf") [None; Some (lit "Hello world")]].

(** A store with Alice's file and a file whose owner has no record. *)
Definition orphan_db : database :=
  save_file (app_db (run (init flaky_model) one_upload))
    (Some 9) (lit "b.pdf") (lit "Moby").

(** A list of strings without its repetitions, each string kept where it
    comes first. *)
Fixpoint first_occurrences (l : list str) : list str :=
  match l with
  | [] => []
  | x :: r => x :: filter (fun y => negb (eqb y x)) (first_occurrences r)
  end.

(** All characters of a string are whitespace. *)
Definition blank (s : str) : Prop := forall c, In c s -> isspace c = true.

(** The user row a session is logged in as. *)
Definition session_user (s : session) (u : user_row) : Prop :=
  user_id s = Some (u_id u) /\ name s = u_name u.

(* ================================================================== *)
(** * Properties *)

(* ------------------------------------------------------------------ *)
(** ** Strings *)

Section Strings.

Lemma eqb_refl (a : str) : eqb a a = true.
Proof.
  induction a as [|x a IH]; simpl; [reflexivity|].
  now rewrite N.eqb_refl, IH.
Qed.

Lemma eqb_eq (a b : str) : eqb a b = true <-> a = b.
Proof.
  split; [|intros ->; apply eqb_refl].
  revert b; induction a as [|x a IH]; intros [|y b]; simpl; try discriminate.
  - reflexivity.
  - intros H. apply andb_true_iff in H as [Hx Hab].
    apply N.eqb_eq in Hx. apply IH in Hab. congruence.
Qed.

Lemma eqb_neq (a b : str) : eqb a b = false <-> a <> b.
Proof.
  rewrite <- eqb_eq. destruct (eqb a b); split; congruence.
Qed.

Lemma truthy_nonempty (s : str) : truthy s = true <-> s <> [].
Proof. destruct s; simpl; split; congruence. Qed.

Lemma lstrip_nil_iff (s : str) :
  lstrip s = [] <-> forall c, In c s -> isspace c = true.
Proof.
  induction s as [|c s IH]; simpl.
  - split; [intros _ c []|reflexivity].
  - destruct (isspace c) eqn:Hc.
    + rewrite IH. split.
      * intros H d [<-|Hd]; auto.
      * intros H d Hd. apply H. now right.
    + split; [discriminate|].
      intros H. specialize (H c (or_introl eq_refl)). congruence.
Qed.

Lemma rstrip_nil_iff (s : str) :
  rstrip s = [] <-> forall c, In c s -> isspace c = true.
Proof.
  induction s as [|c s IH]; simpl.
  - split; [intros _ c []|reflexivity].
  - destruct (rstrip s) as [|r rs] eqn:Hr.
    + destruct (isspace c) eqn:Hc.
      * split; [|reflexivity].
        intros _ d [<-|Hd]; [assumption|]. now apply IH.
      * split; [discriminate|].
        intros H. specialize (H c (or_introl eq_refl)). congruence.
    + split; [discriminate|].
      intros H. assert (r :: rs = []) by (apply IH; intros d Hd; apply H; now right).
      discriminate.
Qed.

Lemma lstrip_In (s : str) (c : char) : In c (lstrip s) -> In c s.
Proof.
  induction s as [|d s IH]; simpl; [tauto|].
  destruct (isspace d); simpl; tauto.
Qed.

Lemma lstrip_visible (s : str) (c : char) :
  In c s -> isspace c = false -> In c (lstrip s).
Proof.
  induction s as [|d s IH]; simpl; [tauto|].
  intros [->|Hc] Hs.
  - rewrite Hs. now left.
  - destruct (isspace d); [auto|]. now right.
Qed.

(** Stripping leaves something exactly when some character is visible. *)
Lemma strip_nonempty_iff (s : str) :
  strip s <> [] <-> exists c, In c s /\ isspace c = false.
Proof.
  unfold strip. split.
  - intros H.
    destruct (existsb (fun c => negb (isspace c)) s) eqn:He.
    + apply existsb_exists in He as (c & Hc & Hn).
      exists c. split; [assumption|]. now apply negb_true_iff.
    + exfalso. apply H. apply rstrip_nil_iff. intros c Hc.
      apply lstrip_In in Hc.
      destruct (isspace c) eqn:Hs; [reflexivity|].
      assert (existsb (fun c => negb (isspace c)) s = true)
        by (apply existsb_exists; exists c; rewrite Hs; auto).
      congruence.
  - intros (c & Hc & Hs) H.
    pose proof (proj1 (rstrip_nil_iff _) H c (lstrip_visible _ _ Hc Hs)).
    congruence.
Qed.

Lemma rstrip_app_blank (s t : str) :
  rstrip t = [] -> rstrip (s ++ t) = rstrip s.
Proof.
  intros Ht. induction s as [|c s IH]; simpl; [assumption|].
  now rewrite IH.
Qed.

Lemma lstrip_app (s t : str) :
  lstrip (s ++ t) = match lstrip s with [] => lstrip t | r => r ++ t end.
Proof.
  induction s as [|c s IH]; simpl; [reflexivity|].
  destruct (isspace c); [assumption|reflexivity].
Qed.

(** Whitespace appended at the end does not survive [strip]. *)
Lemma strip_app_blank (s t : str) :
  (forall c, In c t -> isspace c = true) -> strip (s ++ t) = strip s.
Proof.
  intros Ht. unfold strip. rewrite lstrip_app.
  destruct (lstrip s) as [|r rs] eqn:Hs.
  - simpl. apply rstrip_nil_iff. intros c Hc. apply lstrip_In in Hc. auto.
  - apply rstrip_app_blank. now apply rstrip_nil_iff.
Qed.

Lemma newline_blank (c : char) : In c newline -> isspace c = true.
Proof. intros [<-|[]]. reflexivity. Qed.

End Strings.

(* ------------------------------------------------------------------ *)
(** ** Extraction *)

Section Extraction.

Lemma extract_loop (file : pdf) (acc : str) :
  fold_left extract_page file acc
  = acc ++ List.concat (map (fun p => p ++ newline) (kept_pages file)).
Proof.
  revert acc. induction file as [|[p|] file IH]; intros acc; simpl.
  - now rewrite app_nil_r.
  - destruct (truthy p); simpl; rewrite IH; [|reflexivity].
    now rewrite <- app_assoc.
  - apply IH.
Qed.

Lemma join_newline_terminated (ps : list str) :
  ps <> [] ->
  List.concat (map (fun p => p ++ newline) ps) = join newline ps ++ newline.
Proof.
  induction ps as [|p ps IH]; [congruence|]. intros _.
  destruct ps as [|q ps].
  - simpl. now rewrite app_nil_r.
  - change (join newline (p :: q :: ps))
      with (p ++ newline ++ join newline (q :: ps)).
    change (List.concat (map (fun p => p ++ newline) (p :: q :: ps)))
      with ((p ++ newline) ++ List.concat (map (fun p => p ++ newline) (q :: ps))).
    rewrite IH by discriminate. now rewrite <- !app_assoc.
Qed.

(** The loop and the final [strip] give the stripped newline-join of the
    kept pages, whatever the pages are. *)
Lemma extract_pdf_text_join (file : pdf) :
  extract_pdf_text file = strip (join newline (kept_pages file)).
Proof.
  unfold extract_pdf_text. rewrite extract_loop. simpl.
  destruct (kept_pages file) as [|p ps] eqn:Hk; [reflexivity|].
  rewrite join_newline_terminated by discriminate.
  apply strip_app_blank, newline_blank.
Qed.

Lemma kept_pages_In (file : pdf) (p : str) :
  In p (kept_pages file) <-> In (Some p) file /\ truthy p = true.
Proof.
  induction file as [|[q|] file IH]; simpl.
  - tauto.
  - destruct (truthy q) eqn:Hq; simpl; rewrite IH; split.
    + intros [->|[H1 H2]]; auto.
    + intros [[H|H] Hp]; [left; congruence|right; auto].
    + intros [H1 H2]; auto.
    + intros [[H|H] Hp]; [congruence|auto].
  - rewrite IH. split; [intros [H1 H2]; auto|].
    intros [[H|H] Hp]; [discriminate|auto].
Qed.

Lemma In_join (sep : str) (ps : list str) (p : str) (c : char) :
  In p ps -> In c p -> In c (join sep ps).
Proof.
  induction ps as [|q ps IH]; simpl; [tauto|].
  intros [->|Hp] Hc.
  - destruct ps; [assumption|]. apply in_or_app. now left.
  - destruct ps as [|r ps]; [destruct Hp|].
    apply in_or_app. right. apply in_or_app. right. now apply IH.
Qed.

Lemma kept_pages_none (file : pdf) :
  (forall pg, In pg file -> truthy_opt pg = false) -> kept_pages file = [].
Proof.
  induction file as [|[p|] file IH]; simpl; intros H.
  - reflexivity.
  - pose proof (H (Some p) (or_introl eq_refl)) as Hp. simpl in Hp.
    rewrite Hp. apply IH. intros pg Hpg. apply H. now right.
  - apply IH. intros pg Hpg. apply H. now right.
Qed.

End Extraction.

(* ------------------------------------------------------------------ *)
(** ** Rowids and ordering *)

Section Rowids.

Lemma max_rowid_ge (ids : list Z) (i : Z) : In i ids -> i <= max_rowid ids.
Proof.
  induction ids as [|j ids IH]; simpl; [tauto|].
  intros [->|H]; [lia|]. specialize (IH H). lia.
Qed.

(** A fresh rowid is above every rowid of the table. *)
Lemma next_rowid_fresh (seq : Z) (ids : list Z) (i : Z) :
  In i ids -> i < next_rowid seq ids.
Proof.
  intros H. apply max_rowid_ge in H. unfold next_rowid. lia.
Qed.


Variable A : Type.
Variable key : A -> Z.

Lemma insert_desc_smallest (x : A) (l : list A) :
  (forall y, In y l -> key x < key y) -> insert_desc key x l = l ++ [x].
Proof.
  induction l as [|y l IH]; simpl; intros H; [reflexivity|].
  assert (key x < key y) by (apply H; now left).
  destruct (key y <? key x) eqn:E; [apply Z.ltb_lt in E; lia|].
  f_equal. apply IH. intros z Hz. apply H. now right.
Qed.

Lemma order_by_desc_In (l : list A) (x : A) :
  In x (order_by_desc key l) <-> In x l.
Proof.
  assert (Hins : forall y m, In x (insert_desc key y m) <-> x = y \/ In x m).
  { intros y m. induction m as [|z m IH]; simpl.
    - intuition congruence.
    - destruct (key z <? key y); simpl; [intuition congruence|].
      rewrite IH. intuition congruence. }
  induction l as [|y l IH]; simpl; [tauto|].
  rewrite Hins, IH. intuition congruence.
Qed.

(** On a table in rowid order, [ORDER BY id DESC] reverses the rows. *)
Lemma order_by_desc_sorted (l : list A) :
  StronglySorted Z.lt (map key l) -> order_by_desc key l = rev l.
Proof.
  induction l as [|x l IH]; simpl; intros Hs; [reflexivity|].
  inversion Hs as [|? ? Hl Hx]; subst.
  rewrite IH by assumption.
  apply insert_desc_smallest. intros y Hy.
  rewrite Forall_forall in Hx. apply Hx.
  apply in_map. now apply in_rev.
Qed.

(** A row above all others comes first under [ORDER BY id DESC]. *)
Lemma order_by_desc_newest (l : list A) (x : A) :
  (forall y, In y l -> key y < key x) ->
  order_by_desc key (l ++ [x]) = x :: order_by_desc key l.
Proof.
  induction l as [|y l IH]; simpl; intros H; [reflexivity|].
  rewrite IH by (intros z Hz; apply H; now right). simpl.
  assert (key y < key x) by (apply H; now left).
  destruct (key x <? key y) eqn:E; [apply Z.ltb_lt in E; lia|reflexivity].
Qed.

Lemma sorted_filter (p : A -> bool) (l : list A) :
  StronglySorted Z.lt (map key l) ->
  StronglySorted Z.lt (map key (filter p l)).
Proof.
  induction l as [|x l IH]; simpl; intros Hs; [constructor|].
  inversion Hs as [|? ? Hl Hx]; subst.
  destruct (p x); simpl; [|now apply IH].
  constructor; [now apply IH|].
  rewrite Forall_forall in *. intros k Hk. apply Hx.
  apply in_map_iff in Hk as (y & <- & Hy). apply in_map.
  apply filter_In in Hy. tauto.
Qed.

(** With rowids in order, at most one row has a given rowid. *)
Lemma sorted_filter_key (k : Z) (l : list A) :
  StronglySorted Z.lt (map key l) ->
  filter (fun x => key x =? k) l
  = match find (fun x => key x =? k) l with Some x => [x] | None => [] end.
Proof.
  induction l as [|x l IH]; simpl; intros Hs; [reflexivity|].
  inversion Hs as [|? ? Hl Hx]; subst.
  destruct (key x =? k) eqn:E; [|now apply IH].
  f_equal. apply Z.eqb_eq in E.
  rewrite Forall_forall in Hx.
  clear IH Hs Hl. induction l as [|y l IH]; simpl; [reflexivity|].
  assert (key x < key y) by (apply Hx; simpl; now left).
  destruct (key y =? k) eqn:E'; [apply Z.eqb_eq in E'; lia|].
  apply IH. intros z Hz. apply Hx. simpl. now right.
Qed.

End Rowids.

(* ------------------------------------------------------------------ *)
(** ** The store *)

Section Store.

Lemma save_file_files db uid fname content :
  files (save_file db uid fname content)
  = files db
    ++ [mkfile (next_rowid (files_seq db) (map f_id (files db)))
          uid fname content].
Proof. reflexivity. Qed.





(** The lookup by id finds a row exactly when some row has the id. *)
Lemma get_file_content_by_id_none db file_id :
  (forall f, In f (files db) -> f_id f <> file_id) ->
  get_file_content_by_id db file_id = None.
Proof.
  intros H. unfold get_file_content_by_id.
  destruct (filter _ _) as [|row rows] eqn:E; [reflexivity|].
  assert (Hin : In row (filter (fun f => f_id f =? file_id) (files db)))
    by (rewrite E; now left).
  apply filter_In in Hin as [Hin Hid]. apply Z.eqb_eq in Hid.
  now apply H in Hin.
Qed.


End Store.

(* ------------------------------------------------------------------ *)
(** ** Reachable states *)

Section Reachable.

Lemma qa_page_db a selected_label question :
  app_db (fst (qa_page a selected_label question)) = app_db a.
Proof.
  unfold qa_page.
  destruct (negb (logged_in (app_session a))); [reflexivity|].
  destruct (get_all_files (app_db a)); [reflexivity|].
  destruct (PyDict.get _ _); [|reflexivity].
  destruct (load_selected _ _ _) as [[s' [c|]] out]; [|reflexivity].
  destruct question; [|reflexivity].
  destruct (answer_block _ _ _); reflexivity.
Qed.

(** A run of the script leaves the store alone, adds one user, or stores
    one file whose text is not empty. *)
Lemma step_db a e :
  app_db (fst (step a e)) = app_db a
  \/ (exists name email password dob,
        add_user (app_db a) name email password dob
        = Some (app_db (fst (step a e))))
  \/ (exists uid fname text,
        text <> [] /\
        app_db (fst (step a e)) = save_file (app_db a) uid fname text).
Proof.
  destruct e as [email password|name email password confirm dob today
                |fname file|l|l q]; simpl.
  - left. destruct (logged_in _); [reflexivity|].
    destruct (login_block _ _ _ _); reflexivity.
  - destruct (logged_in _); [now left|].
    unfold signup_block.
    destruct (_ <? 25); [now left|].
    destruct (negb _); [now left|].
    destruct (user_exists _ _); [now left|].
    destruct (add_user _ _ _ _ _) as [db'|] eqn:E; [|now left].
    right. left. exists name, email, password, (date_str dob). exact E.
  - destruct (logged_in _); [|now left].
    unfold upload_block.
    destruct (truthy (extract_pdf_text file)) eqn:E; simpl; [|now left].
    right. right. exists (user_id (app_session a)), fname, (extract_pdf_text file).
    split; [now apply truthy_nonempty|reflexivity].
  - left. apply qa_page_db.
  - left. apply qa_page_db.
Qed.

Lemma reachable_run a evs : reachable a -> reachable (run a evs).
Proof.
  revert a. induction evs as [|e evs IH]; intros a Ha; simpl; [assumption|].
  apply IH. now constructor.
Qed.


Lemma reachable_text_nonempty a :
  reachable a -> forall f, In f (files (app_db a)) -> f_content f <> [].
Proof.
  induction 1 as [m|a e Ha IH]; [intros f []|].
  destruct (step_db a e) as [E|[(n & em & pw & d & E)|(u & fn & t & Ht & E)]].
  - now rewrite E.
  - unfold add_user in E. destruct (email_taken _ _); [discriminate|].
    injection E as E. rewrite <- E. exact IH.
  - rewrite E, save_file_files. intros f Hf.
    apply in_app_or in Hf as [Hf|[<-|[]]]; [now apply IH|exact Ht].
Qed.

End Reachable.

(* ------------------------------------------------------------------ *)
(** ** Extractor *)

(** C1, amended: for every PDF with a page whose extracted text has a
    character that is not whitespace, [extract_pdf_text] returns a string
    that is not empty and equals the kept pages' texts, in page order,
    joined by single newlines and stripped. *)
Theorem extract_pdf_text_visible (file : pdf) :
  (exists pg, In pg file /\ has_visible pg) ->
  extract_pdf_text file <> [] /\
  extract_pdf_text file = strip (join newline (kept_pages file)).
Proof.
  intros (pg & Hpg & p & c & -> & Hc & Hs).
  split; [|apply extract_pdf_text_join].
  rewrite extract_pdf_text_join. apply strip_nonempty_iff.
  exists c. split; [|assumption].
  apply In_join with (p := p); [|assumption].
  apply kept_pages_In. split; [assumption|].
  destruct p; [destruct Hc|reflexivity].
Qed.

Lemma extract_pdf_text_visible_witness :
  extract_pdf_text [None; Some (lit "Call me "); Some []; Some (lit "Ishmael.")]
  = lit "Call me " ++ newline ++ lit "Ishmael.".
Proof.
  pose proof (extract_pdf_text_visible
                [None; Some (lit "Call me "); Some []; Some (lit "Ishmael.")])
    as H.
  destruct H as [_ H].
  - exists (Some (lit "Call me ")). split; [simpl; auto|].
    exists (lit "Call me "), 67%N. repeat split; vm_compute; auto.
  - rewrite H. vm_compute. reflexivity.
Defined.

(** C1 as stated fails: a PDF whose only page yields a single space has a
    page that yields text, and the extractor returns the empty string. *)
Lemma extract_pdf_text_blank_page :
  (exists pg, In pg [Some (lit " ")] /\ text_bearing pg) /\
  extract_pdf_text [Some (lit " ")] = [].
Proof.
  split; [|reflexivity].
  exists (Some (lit " ")). split; [now left|reflexivity].
Qed.

(** C4: when no page yields text the extractor returns the empty string,
    the upload block answers with its error and changes neither the store
    nor the session, and so does the whole run of the script; in every
    reachable state every stored file has a text that is not empty. *)
Theorem empty_extraction_rejected :
  (forall file : pdf,
      (forall pg, In pg file -> truthy_opt pg = false) ->
      extract_pdf_text file = [] /\
      (forall db s fname,
          upload_block db s fname file
          = (db, s,
             [Error (lit "Couldn't extract text from this PDF. Try another file.")]))
      /\ (forall a fname, fst (step a (Upload fname file)) = a)) /\
  (forall a, reachable a ->
     forall f, In f (files (app_db a)) -> f_content f <> []).
Proof.
  split; [|exact reachable_text_nonempty].
  intros file Hf.
  assert (E : extract_pdf_text file = []).
  { rewrite extract_pdf_text_join, (kept_pages_none file Hf). reflexivity. }
  split; [exact E|]. split.
  - intros db s fname. unfold upload_block. rewrite E. reflexivity.
  - intros [db s m] fname. unfold step, upload_block. rewrite E. simpl.
    destruct (logged_in s); reflexivity.
Qed.

Lemma empty_extraction_rejected_witness :
  extract_pdf_text [None; Some []] = [] /\
  (forall f, In f (files (app_db (run (init flaky_model) two_uploads))) ->
             f_content f <> []).
Proof.
  split.
  - apply (proj1 empty_extraction_rejected [None; Some []]).
    intros pg [<-|[<-|[]]]; reflexivity.
  - apply (proj2 empty_extraction_rejected).
    apply reachable_run, reach_init.
Defined.

(* ------------------------------------------------------------------ *)
(** ** Document store *)

Lemma sorted_lt_NoDup (ids : list Z) : StronglySorted Z.lt ids -> NoDup ids.
Proof.
  induction 1 as [|i ids Hs IH Hi]; constructor; [|assumption].
  intros Hin. rewrite Forall_forall in Hi. specialize (Hi i Hin). lia.
Qed.


Lemma filter_none {A : Type} (p : A -> bool) (l : list A) :
  (forall x, In x l -> p x = false) -> filter p l = [].
Proof.
  induction l as [|x l IH]; simpl; intros H; [reflexivity|].
  rewrite (H x (or_introl eq_refl)). apply IH. intros y Hy. apply H. now right.
Qed.

Lemma find_none {A : Type} (p : A -> bool) (l : list A) :
  (forall x, In x l -> p x = false) -> find p l = None.
Proof.
  induction l as [|x l IH]; simpl; intros H; [reflexivity|].
  rewrite (H x (or_introl eq_refl)). apply IH. intros y Hy. apply H. now right.
Qed.

(** C8: the text read back under the rowid a creation was given is the
    text that was stored; in particular for [a.pdf] holding
    [Hello world]. *)
Theorem create_get_text_roundtrip (db : database) (o : option Z) (f t : str) :
  get_file_content_by_id (save_file db o f t) (snd (insert_file db o f t))
  = Some t
  /\ get_file_content_by_id
       (save_file db o (lit "a.pdf") (lit "Hello world"))
       (snd (insert_file db o (lit "a.pdf") (lit "Hello world")))
     = Some (lit "Hello world").
Proof.
  assert (H : forall f t,
             get_file_content_by_id (save_file db o f t)
               (snd (insert_file db o f t)) = Some t).
  { clear f t. intros f t. unfold get_file_content_by_id.
    rewrite save_file_files, filter_app. cbn [snd insert_file].
    rewrite filter_none.
    - cbn [filter List.app f_id]. now rewrite Z.eqb_refl.
    - intros g Hg. apply Z.eqb_neq.
      pose proof (next_rowid_fresh (files_seq db) (map f_id (files db))
                    (f_id g) (in_map f_id _ _ Hg)). lia. }
  split; apply H.
Qed.

Lemma save_files_cons db uid fname content rest :
  save_files db ((uid, fname, content) :: rest)
  = (fst (save_files (save_file db uid fname content) rest),
     snd (insert_file db uid fname content)
     :: snd (save_files (save_file db uid fname content) rest)).
Proof.
  simpl. unfold save_file. simpl.
  destruct (save_files _ rest). reflexivity.
Qed.

Lemma save_files_spec (calls : list (option Z * str * str)) :
  forall db,
    StronglySorted Z.lt (snd (save_files db calls)) /\
    (forall g i, In g (files db) -> In i (snd (save_files db calls)) ->
                 f_id g < i) /\
    exists news,
      files (fst (save_files db calls)) = files db ++ news /\
      map f_id news = snd (save_files db calls) /\
      map file_data news = calls.
Proof.
  induction calls as [|[[uid fname] content] rest IH]; intros db.
  - simpl. split; [constructor|]. split; [intros g i _ []|].
    exists []. now rewrite app_nil_r.
  - rewrite save_files_cons. cbn [fst snd insert_file].
    set (id := next_rowid (files_seq db) (map f_id (files db))).
    destruct (IH (save_file db uid fname content))
      as (Hs & Hlt & news & Hf & Hid & Hd).
    rewrite save_file_files in Hlt, Hf. fold id in Hlt, Hf.
    assert (Hnew : forall i,
               In i (snd (save_files (save_file db uid fname content) rest)) ->
               id < i).
    { intros i Hi.
      apply (Hlt (mkfile id uid fname content) i); [|assumption].
      apply in_or_app. right. now left. }
    split; [|split].
    + constructor; [assumption|]. now apply Forall_forall.
    + intros g i Hg [<-|Hi].
      * apply next_rowid_fresh. now apply in_map.
      * apply Hlt; [|assumption]. apply in_or_app. now left.
    + exists (mkfile id uid fname content :: news).
      rewrite Hf, <- app_assoc. split; [reflexivity|].
      split; simpl; [now rewrite Hid|now rewrite Hd].
Qed.

(** C7: along any sequence of [save_file] calls the rowids given are
    strictly increasing, hence pairwise distinct, and above every rowid
    already stored; the rows stored before stay as they were, and the new
    rows follow them, one per call, with the data of the calls. *)
Theorem save_files_ids (db : database) (calls : list (option Z * str * str)) :
  StronglySorted Z.lt (snd (save_files db calls)) /\
  NoDup (snd (save_files db calls)) /\
  (forall g i, In g (files db) -> In i (snd (save_files db calls)) ->
               f_id g < i) /\
  exists news,
    files (fst (save_files db calls)) = files db ++ news /\
    map f_id news = snd (save_files db calls) /\
    map file_data news = calls.
Proof.
  destruct (save_files_spec calls db) as (Hs & Hlt & Hn).
  split; [assumption|]. split; [now apply sorted_lt_NoDup|].
  split; assumption.
Qed.

Lemma save_files_ids_witness :
  f_id (mkfile 1 None (lit "a.pdf") (lit "x")) < 3.
Proof.
  apply (proj1 (proj2 (proj2
           (save_files_ids (save_file empty_db None (lit "a.pdf") (lit "x"))
              [(Some 1, lit "b.pdf", lit "y"); (None, lit "c.pdf", lit "z")])))).
  - vm_compute. auto.
  - vm_compute. auto.
Defined.

Lemma latest_after_save db (o : Z) fname text :
  get_user_last_file_content (save_file db (Some o) fname text) (Some o)
  = Some text.
Proof.
  unfold get_user_last_file_content.
  rewrite save_file_files, filter_app. cbn [filter f_user_id sql_eq].
  rewrite Z.eqb_refl, order_by_desc_newest; [reflexivity|].
  intros g Hg. apply filter_In in Hg as [Hg _]. cbn [f_id].
  apply next_rowid_fresh. now apply in_map.
Qed.

Lemma latest_after_other db (o : Z) (o' : option Z) fname text :
  o' <> Some o ->
  get_user_last_file_content (save_file db o' fname text) (Some o)
  = get_user_last_file_content db (Some o).
Proof.
  intros Hne. unfold get_user_last_file_content.
  rewrite save_file_files, filter_app. cbn [filter f_user_id].
  replace (sql_eq o' (Some o)) with false; [now rewrite app_nil_r|].
  destruct o' as [x|]; [|reflexivity]. simpl. symmetry.
  apply Z.eqb_neq. congruence.
Qed.

(** C6: in a store whose rowids are in order,
    [get_user_last_file_content] gives the text of the file the owner
    created last, and [None] when the owner has no file; creating a file
    makes it the owner's latest, creations by others leave the answer as it
    was, and after D1 (owner o), D2 (owner o2), D3 (owner o) the answer is
    D3's text. *)
Theorem latest_for_owner (db : database) (o : Z) :
  wf_db db ->
  get_user_last_file_content db (Some o)
  = option_map f_content (latest_created db o)
  /\ ((forall g, In g (files db) -> f_user_id g <> Some o) ->
      get_user_last_file_content db (Some o) = None)
  /\ (forall fname text,
        get_user_last_file_content (save_file db (Some o) fname text) (Some o)
        = Some text)
  /\ (forall o' fname text,
        o' <> Some o ->
        get_user_last_file_content (save_file db o' fname text) (Some o)
        = get_user_last_file_content db (Some o))
  /\ (forall o2 f1 t1 f2 t2 f3 t3,
        get_user_last_file_content
          (save_file (save_file (save_file db (Some o) f1 t1) o2 f2 t2)
             (Some o) f3 t3) (Some o)
        = Some t3).
Proof.
  intros [_ Hf]. split; [|split; [|split; [|split]]].
  - unfold get_user_last_file_content, latest_created.
    rewrite order_by_desc_sorted by now apply sorted_filter.
    destruct (rev _); reflexivity.
  - intros Hnone. unfold get_user_last_file_content.
    rewrite filter_none; [reflexivity|].
    intros g Hg. specialize (Hnone g Hg).
    destruct (f_user_id g) as [x|]; [|reflexivity]. simpl.
    apply Z.eqb_neq. congruence.
  - intros. apply latest_after_save.
  - intros. now apply latest_after_other.
  - intros. apply latest_after_save.
Qed.

Lemma latest_for_owner_witness :
  get_user_last_file_content
    (app_db (run (init flaky_model) two_uploads)) (Some 1)
  = Some (lit "Hello world")
  /\ get_user_last_file_content
       (app_db (run (init flaky_model) two_uploads)) (Some 2)
     = None.
Proof.
  assert (Hwf : wf_db (app_db (run (init flaky_model) two_uploads))).
  { split; vm_compute; repeat constructor. }
  split.
  - rewrite (proj1 (latest_for_owner _ 1 Hwf)). reflexivity.
  - apply (proj1 (proj2 (latest_for_owner _ 2 Hwf))).
    intros g Hg. vm_compute in Hg.
    destruct Hg as [<-|[<-|[]]]; discriminate.
Defined.

(* ------------------------------------------------------------------ *)
(** ** Retrieval selector: loading *)

(** C5: when no stored file has the selected id, loading it gives the
    warning for a book that could not be loaded, hands no text to the
    question form, and returns the session as it was, cached text
    included. *)
Theorem load_selected_not_found (db : database) (s : session) (file_id : Z) :
  (forall f, In f (files db) -> f_id f <> file_id) ->
  load_selected db s file_id
  = (s, None,
     [Warning (lit "Could not load the selected book. "
               ++ lit "Try another one or upload a new PDF.")]).
Proof.
  intros H. unfold load_selected.
  now rewrite (get_file_content_by_id_none db file_id H).
Qed.

Lemma load_selected_not_found_witness :
  book_content
    (fst (fst (load_selected (app_db (run (init flaky_model) two_uploads))
                 (app_session (run (init flaky_model) two_uploads)) 7)))
  = Some (lit "Hello world").
Proof.
  rewrite load_selected_not_found.
  - reflexivity.
  - intros f Hf. vm_compute in Hf.
    destruct Hf as [<-|[<-|[]]]; discriminate.
Defined.

(* ------------------------------------------------------------------ *)
(** ** Question answering *)

(** C3: the prompt is the fixed instruction, then the whole book content
    between fixed markers, then the question between fixed markers; the
    model is sent this prompt once and nothing else; when the call fails
    the only message is the error with the detail of the failure, and when
    it answers the only message is that answer. *)
Theorem answer_block_grounded (m : llm) (content question : str) :
  prompt content question
  = (lit "You are a helpful tutor. Answer ONLY using the following book content. "
     ++ lit "If the answer isn't present, say you don't know."
     ++ newline ++ newline ++ lit "BOOK CONTENT:" ++ newline)
    ++ content
    ++ (newline ++ newline ++ lit "QUESTION:" ++ newline)
    ++ question
    ++ (newline ++ newline ++ lit "ANSWER:")
  /\ sent (fst (answer_block m content question))
     = sent m ++ [prompt content question]
  /\ respond (fst (answer_block m content question)) = respond m
  /\ (forall detail,
        respond m (sent m) (prompt content question) = Fails detail ->
        snd (answer_block m content question)
        = [Error (lit "Error: " ++ detail)])
  /\ (forall text,
        respond m (sent m) (prompt content question) = Responds text ->
        snd (answer_block m content question)
        = [Written [lit "**Answer:**"; text]]).
Proof.
  split.
  - unfold prompt, instruction. now rewrite <- !app_assoc.
  - unfold answer_block, generate_content.
    destruct (respond m (sent m) (prompt content question)) as [t|e] eqn:E;
      simpl; repeat split; intros x [= <-]; reflexivity.
Qed.

Lemma answer_block_grounded_witness :
  snd (answer_block flaky_model (lit "Call me Ishmael.")
         (lit "Who speaks first?"))
  = [Error (lit "Error: quota exceeded")]
  /\ List.length
       (sent (fst (answer_block flaky_model (lit "Call me Ishmael.")
                     (lit "Who speaks first?")))) = 1%nat.
Proof.
  pose proof (answer_block_grounded flaky_model (lit "Call me Ishmael.")
                (lit "Who speaks first?")) as (_ & Hs & _ & Hf & _).
  split.
  - apply (Hf (lit "quota exceeded")). reflexivity.
  - rewrite Hs. reflexivity.
Defined.

(* ------------------------------------------------------------------ *)
(** ** Signup *)

Lemma calculate_age_years (today dob : date) (k : Z) :
  k <= calculate_age today dob <-> date_le (birthday dob k) today.
Proof.
  unfold calculate_age, tuple_lt, date_le, birthday. cbn [fst snd year month day].
  destruct (Z.ltb_spec (month today) (month dob));
    destruct (Z.eqb_spec (month today) (month dob));
    destruct (Z.ltb_spec (day today) (day dob)); cbn [orb andb]; lia.
Qed.

(** C10: the age is the number of birthdays reached by today; below 25
    the signup answers with its error and leaves the store as it was; the
    store changes only when the age is at least 25, the two passwords are
    the same and the email is not yet registered, and then it gains the
    one new user. *)
Theorem signup_age_gate (db : database) (name email password confirm : str)
  (dob today : date) :
  (forall k, k <= calculate_age today dob <-> date_le (birthday dob k) today)
  /\ (calculate_age today dob < 25 ->
      signup_block db name email password confirm dob today
      = (db, [Error (lit "You must be 25+ years old.")]))
  /\ (fst (signup_block db name email password confirm dob today) <> db ->
      25 <= calculate_age today dob /\ password = confirm
      /\ user_exists db email = None)
  /\ (25 <= calculate_age today dob -> password = confirm ->
      user_exists db email = None ->
      signup_block db name email password confirm dob today
      = (mkdb (users db
               ++ [mkuser (next_rowid (users_seq db) (map u_id (users db)))
                     name email password (date_str dob)])
              (next_rowid (users_seq db) (map u_id (users db)))
              (files db) (files_seq db),
         [Success (lit "Registration successful! Please log in.")])).
Proof.
  split; [intros k; apply calculate_age_years|].
  unfold signup_block, user_exists, add_user.
  destruct (Z.ltb_spec (calculate_age today dob) 25) as [Hage|Hage].
  - split; [reflexivity|]. split; [intros H; now elim H|]. lia.
  - split; [lia|].
    destruct (eqb password confirm) eqn:Hpw; cbn [negb].
    + apply eqb_eq in Hpw.
      destruct (email_taken db email) eqn:Hem; cbn [fst].
      * split; [intros H; now elim H|]. discriminate.
      * split; [intros _; auto|]. reflexivity.
    + apply eqb_neq in Hpw.
      split; [intros H; now elim H|]. intros _ H. now elim Hpw.
Qed.

Lemma signup_age_gate_witness :
  signup_block empty_db (lit "Bob") (lit "bob@example.org") (lit "pw")
    (lit "pw") (mkdate 1999 3 2) (mkdate 2024 3 1)
  = (empty_db, [Error (lit "You must be 25+ years old.")])
  /\ date_le (birthday (mkdate 1999 3 1) 25) (mkdate 2024 3 1).
Proof.
  split.
  - apply (proj1 (proj2 (signup_age_gate empty_db (lit "Bob")
                           (lit "bob@example.org") (lit "pw") (lit "pw")
                           (mkdate 1999 3 2) (mkdate 2024 3 1)))).
    vm_compute. reflexivity.
  - apply (proj1 (signup_age_gate empty_db [] [] [] []
                    (mkdate 1999 3 1) (mkdate 2024 3 1))).
    vm_compute. discriminate.
Defined.

(* ------------------------------------------------------------------ *)
(** ** Dictionaries *)

Section Dict.

Variable V : Type.
Implicit Types (d : PyDict.dict V) (k : str) (v : V).

Lemma get_set_same d k v : PyDict.get k (PyDict.set k v d) = Some v.
Proof.
  induction d as [|[k' v'] d IH]; simpl.
  - now rewrite eqb_refl.
  - destruct (eqb k' k) eqn:E; simpl; rewrite E; [reflexivity|assumption].
Qed.

Lemma get_set_other d k k' v :
  k' <> k -> PyDict.get k (PyDict.set k' v d) = PyDict.get k d.
Proof.
  intros Hne. induction d as [|[k2 v2] d IH]; simpl.
  - apply eqb_neq in Hne. now rewrite Hne.
  - destruct (eqb k2 k') eqn:E; simpl; [|now rewrite IH].
    apply eqb_eq in E. subst k2. apply eqb_neq in Hne. now rewrite Hne.
Qed.

Lemma set_new d k v :
  ~ In k (PyDict.keys d) -> PyDict.set k v d = d ++ [(k, v)].
Proof.
  induction d as [|[k' v'] d IH]; simpl; intros H; [reflexivity|].
  destruct (eqb k' k) eqn:E.
  - apply eqb_eq in E. tauto.
  - f_equal. apply IH. tauto.
Qed.

Lemma keys_set_old d k v :
  In k (PyDict.keys d) -> PyDict.keys (PyDict.set k v d) = PyDict.keys d.
Proof.
  induction d as [|[k' v'] d IH]; simpl; [tauto|]. intros H.
  destruct (eqb k' k) eqn:E; simpl; [reflexivity|].
  f_equal. apply IH. destruct H as [->|H]; [|assumption].
  now rewrite eqb_refl in E.
Qed.

Lemma In_dec_keys d k : {In k (PyDict.keys d)} + {~ In k (PyDict.keys d)}.
Proof. apply in_dec, (list_eq_dec N.eq_dec). Qed.

Lemma keys_set_In d k v k' :
  In k' (PyDict.keys (PyDict.set k v d)) <-> k' = k \/ In k' (PyDict.keys d).
Proof.
  destruct (In_dec_keys d k) as [H|H].
  - rewrite keys_set_old by assumption. intuition congruence.
  - rewrite set_new by assumption. unfold PyDict.keys.
    rewrite map_app, in_app_iff. simpl. intuition congruence.
Qed.

Lemma keys_set_NoDup d k v :
  NoDup (PyDict.keys d) -> NoDup (PyDict.keys (PyDict.set k v d)).
Proof.
  intros Hd. destruct (In_dec_keys d k) as [H|H].
  - now rewrite keys_set_old.
  - rewrite set_new by assumption. unfold PyDict.keys. rewrite map_app.
    simpl. apply NoDup_app; [assumption|repeat constructor; auto|].
    intros x Hx [<-|[]]. tauto.
Qed.

Lemma set_length d k v :
  (List.length (PyDict.set k v d) <= S (List.length d))%nat.
Proof.
  induction d as [|[k' v'] d IH]; simpl; [lia|].
  destruct (eqb k' k); simpl; lia.
Qed.

Lemma fill_keys_In items : forall d k,
  In k (PyDict.keys (PyDict.fill items d))
  <-> In k (PyDict.keys d) \/ In k (map fst items).
Proof.
  induction items as [|[k' v'] items IH]; intros d k; simpl; [tauto|].
  rewrite IH, keys_set_In. simpl. intuition congruence.
Qed.

Lemma fill_keys_NoDup items : forall d,
  NoDup (PyDict.keys d) -> NoDup (PyDict.keys (PyDict.fill items d)).
Proof.
  induction items as [|[k' v'] items IH]; intros d Hd; simpl; [assumption|].
  apply IH. now apply keys_set_NoDup.
Qed.

Lemma fill_length items : forall d,
  (List.length (PyDict.fill items d) <= List.length d + List.length items)%nat.
Proof.
  induction items as [|[k' v'] items IH]; intros d; simpl; [lia|].
  specialize (IH (PyDict.set k' v' d)).
  pose proof (set_length d k' v'). lia.
Qed.

(** Items with pairwise distinct new keys are appended as they come. *)
Lemma fill_distinct items : forall d,
  NoDup (PyDict.keys d ++ map fst items) -> PyDict.fill items d = d ++ items.
Proof.
  induction items as [|[k' v'] items IH]; intros d Hd; simpl.
  - now rewrite app_nil_r.
  - assert (Hk : ~ In k' (PyDict.keys d)).
    { intros Hin. apply NoDup_remove_2 in Hd. apply Hd.
      apply in_or_app. now left. }
    rewrite set_new by assumption. rewrite IH.
    + now rewrite <- app_assoc.
    + unfold PyDict.keys in *. rewrite map_app, <- app_assoc. exact Hd.
Qed.

Lemma fill_get_other items k : forall d,
  (forall kv, In kv items -> fst kv <> k) ->
  PyDict.get k (PyDict.fill items d) = PyDict.get k d.
Proof.
  induction items as [|[k' v'] items IH]; intros d H; simpl; [reflexivity|].
  rewrite IH by (intros kv Hkv; apply H; now right).
  apply get_set_other. apply (H (k', v')). now left.
Qed.

(** The value kept for a key is the one of its last item. *)
Lemma fill_get_last pre post k v d :
  (forall kv, In kv post -> fst kv <> k) ->
  PyDict.get k (PyDict.fill (pre ++ (k, v) :: post) d) = Some v.
Proof.
  intros H. unfold PyDict.fill. rewrite fold_left_app. simpl.
  fold (PyDict.fill pre d). fold (PyDict.fill post (PyDict.set k v (PyDict.fill pre d))).
  rewrite fill_get_other by assumption. apply get_set_same.
Qed.

End Dict.

Lemma entries_for_one (d : PyDict.dict Z) (l : str) :
  NoDup (PyDict.keys d) -> In l (PyDict.keys d) -> entries_for l d = 1%nat.
Proof.
  unfold entries_for.
  induction d as [|[k v] d IH]; simpl; [tauto|]. intros Hd Hin.
  inversion Hd as [|? ? Hk Hd']; subst.
  destruct (eqb k l) eqn:E.
  - apply eqb_eq in E. subst k. simpl. f_equal.
    rewrite filter_none; [reflexivity|].
    intros [k' v'] Hkv. simpl. apply eqb_neq. intros ->.
    apply Hk. apply (in_map fst) in Hkv. exact Hkv.
  - apply IH; [assumption|]. destruct Hin as [->|Hin]; [|assumption].
    now rewrite eqb_refl in E.
Qed.

Lemma last_match_split {A : Type} (p : A -> bool) (l : list A) :
  (exists x, In x l /\ p x = true) ->
  exists pre x post,
    l = pre ++ x :: post /\ p x = true /\
    forall y, In y post -> p y = false.
Proof.
  induction l as [|a l IH]; intros (x & Hx & Hp); [destruct Hx|].
  destruct (existsb p l) eqn:E.
  - apply existsb_exists in E. destruct (IH E) as (pre & y & post & -> & Hy & Hpost).
    exists (a :: pre), y, post. auto.
  - assert (Hl : forall y, In y l -> p y = false).
    { intros y Hy. destruct (p y) eqn:Ey; [|reflexivity].
      assert (existsb p l = true) by (apply existsb_exists; eauto).
      congruence. }
    destruct Hx as [->|Hx]; [|rewrite (Hl x Hx) in Hp; discriminate].
    exists [], x, l. auto.
Qed.

Lemma sorted_after {A : Type} (key : A -> Z) (a b : list A) (x : A) :
  StronglySorted Z.lt (map key (a ++ x :: b)) ->
  forall y, In y b -> key x < key y.
Proof.
  induction a as [|z a IH]; simpl; intros Hs y Hy.
  - inversion Hs as [|? ? _ Hx]; subst. rewrite Forall_forall in Hx.
    apply Hx. now apply in_map.
  - inversion Hs; subst. now apply IH.
Qed.

(* ------------------------------------------------------------------ *)
(** ** Retrieval selector: the catalog *)

Section Catalog.

Variable db : database.
Hypothesis Hwf : wf_db db.

(** With user ids in order the join gives one row per file. *)
Lemma left_join_one (f : file_row) :
  left_join (users db) f = [listing_of db f].
Proof.
  destruct Hwf as [Hu _]. unfold left_join, listing_of, owner_name.
  destruct (f_user_id f) as [k|].
  - change (fun u => sql_eq (Some (u_id u)) (Some k))
      with (fun u => u_id u =? k).
    rewrite (sorted_filter_key _ u_id k (users db) Hu).
    destruct (find _ _); reflexivity.
  - rewrite filter_none, find_none by reflexivity. reflexivity.
Qed.

(** [get_all_files] lists every file once, newest first. *)
Lemma get_all_files_rev :
  get_all_files db = map (listing_of db) (rev (files db)).
Proof.
  unfold get_all_files.
  assert (E : flat_map (left_join (users db)) (files db)
              = map (listing_of db) (files db)).
  { induction (files db) as [|f fs IH]; simpl; [reflexivity|].
    now rewrite left_join_one, IH. }
  rewrite E, order_by_desc_sorted, map_rev; [reflexivity|].
  rewrite map_map. simpl. apply Hwf.
Qed.

Lemma catalog_items :
  catalog db
  = PyDict.comprehension
      (map (fun f => (label_of db f, f_id f)) (rev (files db))).
Proof.
  unfold catalog, options. now rewrite get_all_files_rev, map_map.
Qed.

Lemma catalog_keys_In (l : str) :
  In l (PyDict.keys (catalog db)) <-> In l (map (label_of db) (files db)).
Proof.
  rewrite catalog_items. unfold PyDict.comprehension.
  rewrite fill_keys_In, map_map. simpl. rewrite map_rev, <- in_rev. tauto.
Qed.

Lemma catalog_keys_NoDup : NoDup (PyDict.keys (catalog db)).
Proof.
  rewrite catalog_items. apply fill_keys_NoDup. constructor.
Qed.

Lemma owner_name_missing (f : file_row) :
  (forall u, In u (users db) -> Some (u_id u) <> f_user_id f) ->
  owner_name db f = None.
Proof.
  intros H. unfold owner_name. rewrite find_none; [reflexivity|].
  intros u Hu. specialize (H u Hu).
  destruct (f_user_id f) as [k|]; [|reflexivity]. simpl.
  apply Z.eqb_neq. congruence.
Qed.

End Catalog.

(** C2, amended: in a store whose rowids are in order the catalog never
    has more entries than there are stored files, and a file whose owner
    has no user record is labelled [<filename> (by Unknown)]; when the
    labels of the stored files are pairwise distinct, the catalog has one
    entry per file, each the label [<filename> (by <owner name or
    Unknown>)] with the file's id, in the order of [get_all_files], which
    is newest first. *)
Theorem catalog_distinct_labels (db : database) :
  wf_db db ->
  (List.length (catalog db) <= List.length (files db))%nat
  /\ get_all_files db = map (listing_of db) (rev (files db))
  /\ (forall f,
        (forall u, In u (users db) -> Some (u_id u) <> f_user_id f) ->
        label_of db f = f_filename f ++ lit " (by Unknown)")
  /\ (NoDup (map (label_of db) (files db)) ->
      catalog db
      = map (fun r => (label (l_fname r) (l_uname r), l_fid r))
          (get_all_files db)
      /\ catalog db = map (fun f => (label_of db f, f_id f)) (rev (files db))
      /\ List.length (catalog db) = List.length (files db)).
Proof.
  intros Hwf. split; [|split; [|split]].
  - rewrite catalog_items by assumption. unfold PyDict.comprehension.
    etransitivity; [apply fill_length|].
    simpl. now rewrite length_map, length_rev.
  - now apply get_all_files_rev.
  - intros f Hf. unfold label_of. now rewrite owner_name_missing.
  - intros Hnd.
    assert (E : catalog db
                = map (fun f => (label_of db f, f_id f)) (rev (files db))).
    { rewrite catalog_items by assumption. unfold PyDict.comprehension.
      rewrite fill_distinct; [reflexivity|].
      simpl. rewrite map_map. simpl. rewrite map_rev.
      now apply NoDup_rev. }
    split; [|split; [exact E|]].
    + rewrite E, get_all_files_rev by assumption. now rewrite map_map.
    + now rewrite E, length_map, length_rev.
Qed.

Lemma catalog_distinct_labels_witness :
  catalog orphan_db
  = [(lit "b.pdf (by Unknown)", 2); (lit "a.pdf (by Alice)", 1)].
Proof.
  assert (Hwf : wf_db orphan_db) by (split; vm_compute; repeat constructor).
  destruct (catalog_distinct_labels orphan_db Hwf) as (_ & _ & _ & H).
  destruct H as (_ & -> & _); [|reflexivity].
  vm_compute. constructor; [|repeat constructor; auto].
  intros [E|[]]. discriminate E.
Defined.

(** C2 as stated fails: after Alice has uploaded two files both named
    [a.pdf], a reachable state, two files are stored and the catalog has
    one entry. *)
Lemma catalog_collapses_same_label :
  reachable (run (init flaky_model) two_uploads) /\
  List.length (files (app_db (run (init flaky_model) two_uploads))) = 2%nat /\
  List.length (catalog (app_db (run (init flaky_model) two_uploads))) = 1%nat.
Proof.
  split; [apply reachable_run, reach_init|].
  split; reflexivity.
Qed.

(** C9: in a store whose rowids are in order, the label of any stored
    file has exactly one entry in the catalog, and the selection
    dictionary resolves it to the id of the last row of [get_all_files]
    that carries the label; that id is the smallest among the stored files
    with this label. *)
Theorem options_shared_label (db : database) (f : file_row) :
  wf_db db -> In f (files db) ->
  entries_for (label_of db f) (catalog db) = 1%nat
  /\ exists pre r post,
       get_all_files db = pre ++ r :: post
       /\ label (l_fname r) (l_uname r) = label_of db f
       /\ (forall r', In r' post ->
                      label (l_fname r') (l_uname r') <> label_of db f)
       /\ PyDict.get (label_of db f) (options (get_all_files db))
          = Some (l_fid r)
       /\ (forall g, In g (files db) -> label_of db g = label_of db f ->
                     l_fid r <= f_id g).
Proof.
  intros Hwf Hf. set (l := label_of db f). split.
  - apply entries_for_one; [now apply catalog_keys_NoDup|].
    apply catalog_keys_In; [assumption|]. now apply in_map.
  - destruct (last_match_split (fun g => eqb (label_of db g) l)
                (rev (files db)))
      as (pre & g0 & post & Hsplit & Hg0 & Hpost).
    { exists f. split; [now apply in_rev in Hf|apply eqb_refl]. }
    apply eqb_eq in Hg0.
    exists (map (listing_of db) pre), (listing_of db g0),
           (map (listing_of db) post).
    split; [|split; [|split; [|split]]].
    + rewrite get_all_files_rev, Hsplit, map_app by assumption. reflexivity.
    + exact Hg0.
    + intros r' Hr'. apply in_map_iff in Hr' as (g & <- & Hg).
      apply eqb_neq. now apply Hpost.
    + fold (catalog db). rewrite catalog_items, Hsplit, map_app by assumption.
      cbn [map]. rewrite Hg0. apply fill_get_last.
      intros kv Hkv. apply in_map_iff in Hkv as (g & <- & Hg).
      apply eqb_neq. now apply Hpost.
    + intros g Hg Hl. cbn [l_fid listing_of].
      apply in_rev in Hg. rewrite Hsplit in Hg.
      apply in_app_or in Hg as [Hg|[->|Hg]].
      * assert (Hfiles : files db = rev post ++ g0 :: rev pre).
        { rewrite <- (rev_involutive (files db)), Hsplit, rev_app_distr.
          simpl. now rewrite <- app_assoc. }
        destruct Hwf as [_ Hs]. rewrite Hfiles in Hs.
        pose proof (sorted_after f_id _ _ _ Hs g (proj1 (in_rev _ _) Hg)).
        lia.
      * lia.
      * apply Hpost in Hg. apply eqb_neq in Hg. contradiction.
Qed.

Lemma options_shared_label_witness :
  entries_for (lit "a.pdf (by Alice)")
    (catalog (app_db (run (init flaky_model) two_uploads))) = 1%nat
  /\ PyDict.get (lit "a.pdf (by Alice)")
       (catalog (app_db (run (init flaky_model) two_uploads))) = Some 1.
Proof.
  assert (Hwf : wf_db (app_db (run (init flaky_model) two_uploads)))
    by (split; vm_compute; repeat constructor).
  assert (Hin : In (mkfile 2 (Some 1) (lit "a.pdf") (lit "Hello world"))
                   (files (app_db (run (init flaky_model) two_uploads))))
    by (vm_compute; auto).
  destruct (options_shared_label _ _ Hwf Hin) as [H1 _].
  split; [exact H1|reflexivity].
Defined.

(* ================================================================== *)
(** * Further properties of the script *)

(* ------------------------------------------------------------------ *)
(** ** What [strip] leaves of an extraction *)

Section Stripping.

Lemma lstrip_split (s : str) :
  exists pre, s = pre ++ lstrip s /\ blank pre.
Proof.
  induction s as [|c s (pre & E & Hpre)]; simpl.
  - exists []. split; [reflexivity|intros c []].
  - destruct (isspace c) eqn:Hc.
    + exists (c :: pre). split; [simpl; congruence|].
      intros d [<-|Hd]; auto.
    + exists []. split; [reflexivity|intros d []].
Qed.

Lemma rstrip_split (s : str) :
  exists post, s = rstrip s ++ post /\ blank post.
Proof.
  induction s as [|c s (post & E & Hpost)]; simpl.
  - exists []. split; [reflexivity|intros c []].
  - destruct (rstrip s) as [|r rs] eqn:Hr.
    + destruct (isspace c) eqn:Hc.
      * exists (c :: s). split; [reflexivity|].
        intros d [<-|Hd]; [assumption|].
        apply (proj1 (rstrip_nil_iff s) Hr). exact Hd.
      * exists post. split; [simpl in *; congruence|assumption].
    + exists post. split; [simpl in *; congruence|assumption].
Qed.

Lemma lstrip_head (s : str) (c : char) (t : str) :
  lstrip s = c :: t -> isspace c = false.
Proof.
  induction s as [|d s IH]; simpl; [discriminate|].
  destruct (isspace d) eqn:Hd; [assumption|]. congruence.
Qed.

Lemma rstrip_cons_head (c : char) (s : str) :
  isspace c = false -> exists t, rstrip (c :: s) = c :: t.
Proof.
  intros Hc. simpl. destruct (rstrip s) as [|r rs]; [rewrite Hc|]; eauto.
Qed.

Lemma rstrip_last (s : str) :
  rstrip s <> [] -> isspace (last (rstrip s) 0%N) = false.
Proof.
  induction s as [|c s IH]; simpl; [congruence|].
  destruct (rstrip s) as [|r rs] eqn:Hr.
  - destruct (isspace c) eqn:Hc; [congruence|]. intros _. exact Hc.
  - intros _. change (last (c :: r :: rs) 0%N) with (last (r :: rs) 0%N).
    apply IH. discriminate.
Qed.

Lemma rstrip_idem (s : str) : rstrip (rstrip s) = rstrip s.
Proof.
  induction s as [|c s IH]; simpl; [reflexivity|].
  destruct (rstrip s) as [|r rs] eqn:Hr.
  - destruct (isspace c) eqn:Hc; simpl; [reflexivity|now rewrite Hc].
  - change (rstrip (c :: r :: rs))
      with (match rstrip (r :: rs) with
            | [] => if isspace c then [] else [c]
            | x => c :: x
            end).
    now rewrite IH.
Qed.

Lemma strip_idem (s : str) : strip (strip s) = strip s.
Proof.
  unfold strip. destruct (lstrip s) as [|c t] eqn:E; [reflexivity|].
  pose proof (lstrip_head s c t E) as Hc.
  destruct (rstrip_cons_head c t Hc) as [t' Ht].
  rewrite <- (rstrip_idem (c :: t)) at 2. f_equal.
  rewrite Ht. simpl. now rewrite Hc.
Qed.

Lemma strip_ends (s : str) :
  strip s <> [] ->
  isspace (hd 0%N (strip s)) = false /\ isspace (last (strip s) 0%N) = false.
Proof.
  intros H. split; [|now apply rstrip_last].
  unfold strip in *. destruct (lstrip s) as [|c t] eqn:E; [now elim H|].
  pose proof (lstrip_head s c t E) as Hc.
  destruct (rstrip_cons_head c t Hc) as [t' ->]. exact Hc.
Qed.

Lemma strip_split (s : str) :
  exists pre post, s = pre ++ strip s ++ post /\ blank pre /\ blank post.
Proof.
  destruct (lstrip_split s) as (pre & E & Hpre).
  destruct (rstrip_split (lstrip s)) as (post & E' & Hpost).
  exists pre, post. unfold strip. rewrite <- E'. auto.
Qed.

End Stripping.

(** X1: whatever the pages, the extracted text is the newline-join of the
    kept pages with only whitespace taken off at both ends; it is either
    empty or starts and ends with a character that is not whitespace, and
    stripping it again changes nothing. *)
Theorem extract_pdf_text_trimmed (file : pdf) :
  (exists pre post,
      join newline (kept_pages file) = pre ++ extract_pdf_text file ++ post
      /\ blank pre /\ blank post)
  /\ (extract_pdf_text file <> [] ->
      isspace (hd 0%N (extract_pdf_text file)) = false
      /\ isspace (last (extract_pdf_text file) 0%N) = false)
  /\ strip (extract_pdf_text file) = extract_pdf_text file.
Proof.
  rewrite extract_pdf_text_join. split; [apply strip_split|].
  split; [apply strip_ends|apply strip_idem].
Qed.

Lemma extract_pdf_text_trimmed_witness :
  isspace (hd 0%N (extract_pdf_text [Some (lit "  Moby "); None])) = false.
Proof.
  apply (proj1 (proj2 (extract_pdf_text_trimmed
                         [Some (lit "  Moby "); None]))).
  vm_compute. discriminate.
Defined.

(** X2: the extracted text is empty exactly when no page has a character
    that is not whitespace; so the upload block stores a file, and caches
    its text, exactly for the PDFs that have such a page, and otherwise
    leaves the store and the session as they were. *)
Theorem upload_accepts_visible_text (db : database) (s : session)
  (fname : str) (file : pdf) :
  (extract_pdf_text file <> [] <-> exists pg, In pg file /\ has_visible pg)
  /\ ((exists pg, In pg file /\ has_visible pg) ->
      upload_block db s fname file
      = (save_file db (user_id s) fname (extract_pdf_text file),
         set_book_content s (Some (extract_pdf_text file)),
         [Success (fname ++ lit " uploaded and learned successfully!")]))
  /\ (~ (exists pg, In pg file /\ has_visible pg) ->
      upload_block db s fname file
      = (db, s,
         [Error (lit "Couldn't extract text from this PDF. Try another file.")])).
Proof.
  assert (Hiff : extract_pdf_text file <> []
                 <-> exists pg, In pg file /\ has_visible pg).
  { rewrite extract_pdf_text_join, strip_nonempty_iff. split.
    - intros (c & Hc & Hs).
      assert (Hj : forall ps, In c (join newline ps) ->
                   In c newline \/ exists p, In p ps /\ In c p).
      { induction ps as [|p ps IH]; simpl; [tauto|].
        destruct ps as [|q ps]; [intros; right; eauto|].
        intros Hin. apply in_app_or in Hin as [Hin|Hin]; [right; eauto|].
        destruct Hin as [Hin|Hin]; [left; now left|].
        destruct (IH Hin) as [?|(p' & Hp' & Hcp)]; [now left|].
        right. exists p'. split; [now right|assumption]. }
      destruct (Hj _ Hc) as [Hn|(p & Hp & Hcp)].
      + apply newline_blank in Hn. congruence.
      + apply kept_pages_In in Hp as [Hp _].
        exists (Some p). split; [assumption|]. now exists p, c.
    - intros (pg & Hpg & p & c & -> & Hc & Hs).
      exists c. split; [|assumption].
      apply In_join with (p := p); [|assumption].
      apply kept_pages_In. split; [assumption|].
      destruct p; [destruct Hc|reflexivity]. }
  split; [exact Hiff|]. unfold upload_block. split; intros H.
  - apply Hiff in H. apply truthy_nonempty in H. now rewrite H.
  - destruct (truthy (extract_pdf_text file)) eqn:E; [|reflexivity].
    apply truthy_nonempty, Hiff in E. contradiction.
Qed.

Lemma upload_accepts_visible_text_witness :
  upload_block empty_db fresh_session (lit "s.pdf")
    [Some (lit " "); Some newline]
  = (empty_db, fresh_session,
     [Error (lit "Couldn't extract text from this PDF. Try another file.")]).
Proof.
  apply (proj2 (proj2 (upload_accepts_visible_text empty_db fresh_session
                         (lit "s.pdf") [Some (lit " "); Some newline]))).
  intros (pg & Hpg & p & c & -> & Hc & Hs).
  destruct Hpg as [E|[E|[]]]; injection E as <-;
    (destruct Hc as [<-|[]]; vm_compute in Hs; discriminate).
Defined.

(* ------------------------------------------------------------------ *)
(** ** Users: insertion and lookup *)

Lemma find_app {A : Type} (p : A -> bool) (l m : list A) :
  find p (l ++ m)
  = match find p l with Some x => Some x | None => find p m end.
Proof.
  induction l as [|x l IH]; simpl; [reflexivity|].
  destruct (p x); [reflexivity|assumption].
Qed.

Lemma email_taken_spec (db : database) (email : str) :
  email_taken db email = true
  <-> exists u, In u (users db) /\ u_email u = email.
Proof.
  unfold email_taken. rewrite existsb_exists.
  split; intros (u & Hu & E); exists u; split; auto; now apply eqb_eq.
Qed.

Lemma email_taken_snoc (db : database) (u : user_row) (email : str) us fs sq :
  email_taken (mkdb (users db ++ [u]) us fs sq) email
  = email_taken db email || eqb (u_email u) email.
Proof.
  unfold email_taken. simpl. rewrite existsb_app. simpl.
  now rewrite orb_false_r.
Qed.

(** X3: [add_user] fails exactly when [user_exists] finds the email; when
    it succeeds the store gains one row with a fresh id and the given
    fields, the files are untouched, the email is found from then on, the
    new credentials select the new row, and lookups for any other email
    answer as before. *)
Theorem add_user_lookup (db : database) (name email password dob : str) :
  (add_user db name email password dob = None
   <-> user_exists db email = Some 1)
  /\ (forall db',
        add_user db name email password dob = Some db' ->
        users db'
        = users db
          ++ [mkuser (next_rowid (users_seq db) (map u_id (users db)))
                name email password dob]
        /\ (forall u, In u (users db) -> u_id u < users_seq db')
        /\ files db' = files db
        /\ user_exists db' email = Some 1
        /\ get_user db' email password
           = Some (mkuser (next_rowid (users_seq db) (map u_id (users db)))
                     name email password dob)
        /\ (forall e', e' <> email -> user_exists db' e' = user_exists db e')
        /\ (forall e' p', e' <> email ->
                          get_user db' e' p' = get_user db e' p')).
Proof.
  unfold add_user, user_exists. split.
  - destruct (email_taken db email); split; congruence.
  - destruct (email_taken db email) eqn:Ht; [discriminate|].
    intros db' [= <-]. cbn [users users_seq files].
    split; [reflexivity|]. split.
    { intros u Hu. apply next_rowid_fresh. now apply in_map. }
    split; [reflexivity|]. split.
    { rewrite email_taken_snoc. cbn [u_email]. now rewrite eqb_refl, orb_true_r. }
    split.
    { unfold get_user. cbn [users]. rewrite find_app, find_none.
      - simpl. now rewrite !eqb_refl.
      - intros u Hu. apply andb_false_iff. left.
        destruct (eqb (u_email u) email) eqn:E; [|reflexivity].
        assert (email_taken db email = true)
          by (apply email_taken_spec; exists u; split;
              [assumption|now apply eqb_eq]).
        congruence. }
    split.
    { intros e' He'. rewrite email_taken_snoc. cbn [u_email].
      assert (E : eqb email e' = false) by (apply eqb_neq; congruence).
      now rewrite E, orb_false_r. }
    intros e' p' He'. unfold get_user. cbn [users]. rewrite find_app.
    destruct (find _ (users db)); [reflexivity|]. simpl.
    assert (E : eqb email e' = false) by (apply eqb_neq; congruence).
    now rewrite E.
Qed.

Lemma add_user_lookup_witness :
  get_user (fst (signup_block empty_db (lit "Alice") (lit "alice@example.org")
                   (lit "pw") (lit "pw") (mkdate 1990 5 17) (mkdate 2024 3 1)))
    (lit "alice@example.org") (lit "pw")
  = Some (mkuser 1 (lit "Alice") (lit "alice@example.org") (lit "pw")
            (lit "1990-05-17")).
Proof.
  apply (proj2 (add_user_lookup empty_db (lit "Alice")
                  (lit "alice@example.org") (lit "pw") (lit "1990-05-17"))).
  reflexivity.
Defined.

(* ------------------------------------------------------------------ *)
(** ** One run of the script, case by case *)

Section Steps.

(** The Q&A page either leaves the state as it was, or it has resolved the
    label to an id, read a text that is not empty under that id, cached
    it, and, if a question was asked, made its one call to the model. *)
Lemma qa_page_cases (a : app_state) (l : str) (q : option str) :
  fst (qa_page a l q) = a
  \/ exists id t,
       logged_in (app_session a) = true
       /\ PyDict.get l (catalog (app_db a)) = Some id
       /\ get_file_content_by_id (app_db a) id = Some t
       /\ t <> []
       /\ qa_page a l q
          = (mkapp (app_db a) (set_book_content (app_session a) (Some t))
               (match q with
                | None => app_llm a
                | Some qu => fst (answer_block (app_llm a) t qu)
                end),
             match q with
             | None => []
             | Some qu => snd (answer_block (app_llm a) t qu)
             end).
Proof.
  destruct a as [db s m]. unfold qa_page, catalog. cbn [app_db app_session app_llm].
  destruct (logged_in s) eqn:Hl; cbn [negb]; [|now left].
  destruct (get_all_files db) as [|r rs] eqn:Hall; [now left|].
  destruct (PyDict.get l (options (r :: rs))) as [id|] eqn:Hget; [|now left].
  unfold load_selected.
  destruct (get_file_content_by_id db id) as [t|] eqn:Hc; [|now left].
  cbn [truthy_opt]. destruct (truthy t) eqn:Ht; cbn [negb]; [|now left].
  right. exists id, t. split; [reflexivity|]. split; [reflexivity|].
  split; [assumption|]. split; [now apply truthy_nonempty|].
  destruct q as [qu|]; [|reflexivity].
  destruct (answer_block m t qu); reflexivity.
Qed.

Lemma login_block_cases (db : database) (s : session) (email password : str) :
  (get_user db email password = None
   /\ login_block db s email password = (s, [Error (lit "Invalid credentials")]))
  \/ exists u,
       In u (users db) /\ u_email u = email /\ u_password u = password
       /\ get_user db email password = Some u
       /\ login_block db s email password
          = (mksession true (Some (u_id u)) (u_name u)
               (get_user_last_file_content db (Some (u_id u))),
             [Success (lit "Welcome " ++ u_name u ++ lit "!")]).
Proof.
  unfold login_block. destruct (get_user db email password) as [u|] eqn:E.
  - right. exists u. unfold get_user in E.
    apply find_some in E as [Hu Hm]. apply andb_true_iff in Hm as [H1 H2].
    apply eqb_eq in H1, H2. auto.
  - now left.
Qed.

(** Every run keeps the rows it found and adds rows only at the end. *)
Lemma step_grows (a : app_state) (e : event) :
  exists us fs,
    users (app_db (fst (step a e))) = users (app_db a) ++ us
    /\ files (app_db (fst (step a e))) = files (app_db a) ++ fs.
Proof.
  destruct (step_db a e) as [E|[(n & em & pw & d & E)|(u & fn & t & _ & E)]].
  - rewrite E. exists [], []. now rewrite !app_nil_r.
  - unfold add_user in E. destruct (email_taken _ _); [discriminate|].
    injection E as E. rewrite <- E. simpl. eexists _, [].
    split; [reflexivity|now rewrite app_nil_r].
  - rewrite E. simpl. eexists [], _.
    split; [now rewrite app_nil_r|reflexivity].
Qed.

End Steps.

Section Invariants.

(** What one run of the script can do to the state. *)
Lemma step_cases (a : app_state) (e : event) :
  fst (step a e) = a
  \/ (exists u,
        logged_in (app_session a) = false /\ In u (users (app_db a))
        /\ e = Login (u_email u) (u_password u)
        /\ fst (step a e)
           = mkapp (app_db a)
               (mksession true (Some (u_id u)) (u_name u)
                  (get_user_last_file_content (app_db a) (Some (u_id u))))
               (app_llm a))
  \/ (exists name email password dob db',
        logged_in (app_session a) = false
        /\ add_user (app_db a) name email password dob = Some db'
        /\ fst (step a e) = mkapp db' (app_session a) (app_llm a))
  \/ (exists fname t,
        logged_in (app_session a) = true /\ t <> []
        /\ fst (step a e)
           = mkapp (save_file (app_db a) (user_id (app_session a)) fname t)
               (set_book_content (app_session a) (Some t)) (app_llm a))
  \/ (exists id t m',
        logged_in (app_session a) = true
        /\ get_file_content_by_id (app_db a) id = Some t /\ t <> []
        /\ fst (step a e)
           = mkapp (app_db a) (set_book_content (app_session a) (Some t)) m'
        /\ (m' = app_llm a
            \/ exists l q,
                 e = Ask l q
                 /\ m' = mkllm (respond (app_llm a))
                           (sent (app_llm a) ++ [prompt t q]))).
Proof.
  assert (Hqa : forall l q,
             (forall qu, q = Some qu -> e = Ask l qu) ->
             fst (qa_page a l q) = a
             \/ exists id t m',
                  logged_in (app_session a) = true
                  /\ get_file_content_by_id (app_db a) id = Some t /\ t <> []
                  /\ fst (qa_page a l q)
                     = mkapp (app_db a)
                         (set_book_content (app_session a) (Some t)) m'
                  /\ (m' = app_llm a
                      \/ exists l q,
                           e = Ask l q
                           /\ m' = mkllm (respond (app_llm a))
                                     (sent (app_llm a) ++ [prompt t q]))).
  { intros l q Hq.
    destruct (qa_page_cases a l q) as [E|(id & t & Hl & _ & Hc & Ht & E)];
      [now left|].
    right. exists id, t. rewrite E. cbn [fst].
    destruct q as [qu|].
    - eexists. repeat (split; [eassumption || reflexivity|]).
      right. exists l, qu. split; [now apply Hq|].
      unfold answer_block, generate_content.
      destruct (respond _ _ _); reflexivity.
    - eexists. repeat (split; [eassumption || reflexivity|]). now left. }
  destruct e as [email password|name email password confirm dob today
                |fname file|l|l q]; cbn [step].
  - destruct (logged_in (app_session a)) eqn:Hl; [now left|].
    destruct (login_block_cases (app_db a) (app_session a) email password)
      as [[_ E]|(u & Hu & <- & <- & _ & E)]; rewrite E; cbn [fst].
    + left. now destruct a.
    + right. left. exists u. auto.
  - destruct (logged_in (app_session a)) eqn:Hl; [now left|].
    unfold signup_block.
    destruct (_ <? 25); [left; now destruct a|].
    destruct (negb _); [left; now destruct a|].
    destruct (user_exists _ _); [left; now destruct a|].
    destruct (add_user _ _ _ _ _) as [db'|] eqn:E; [|left; now destruct a].
    right. right. left. exists name, email, password, (date_str dob), db'. auto.
  - destruct (logged_in (app_session a)) eqn:Hl; [|now left].
    unfold upload_block.
    destruct (truthy (extract_pdf_text file)) eqn:E; cbn [negb fst].
    + right. right. right. left. exists fname, (extract_pdf_text file).
      split; [reflexivity|]. split; [now apply truthy_nonempty|reflexivity].
    + left. now destruct a.
  - destruct (Hqa l None) as [E|E]; [discriminate|now left|].
    right. right. right. now right.
  - destruct (Hqa l (Some q)) as [E|E]; [now intros ? [= <-]|now left|].
    right. right. right. now right.
Qed.





End Invariants.

(* ------------------------------------------------------------------ *)
(** ** Invariants of the running application *)

(** X4: no sequence of events removes or changes a stored row: the users
    and the files found at the start are still there, in place, and rows
    are only added after them. *)
Theorem run_append_only (a : app_state) (evs : list event) :
  exists us fs,
    users (app_db (run a evs)) = users (app_db a) ++ us
    /\ files (app_db (run a evs)) = files (app_db a) ++ fs.
Proof.
  revert a. induction evs as [|e evs IH]; intros a; simpl.
  - exists [], []. now rewrite !app_nil_r.
  - destruct (IH (fst (step a e))) as (us2 & fs2 & Hu2 & Hf2).
    destruct (step_grows a e) as (us1 & fs1 & Hu1 & Hf1).
    exists (us1 ++ us2), (fs1 ++ fs2).
    unfold run in *. rewrite Hu2, Hf2, Hu1, Hf1, !app_assoc. auto.
Qed.




(** X6: the signup block checks the age first, then the passwords, then
    the email: with the age reached, different passwords give the password
    error; with equal passwords a registered email gives the email error;
    both leave the store as it was; and the insertion that follows the
    checks never runs into the uniqueness of emails. *)
Theorem signup_checks (db : database) (name email password confirm : str)
  (dob today : date) :
  (25 <= calculate_age today dob -> password <> confirm ->
   signup_block db name email password confirm dob today
   = (db, [Error (lit "Passwords do not match.")]))
  /\ (25 <= calculate_age today dob -> password = confirm ->
      (exists u, In u (users db) /\ u_email u = email) ->
      signup_block db name email password confirm dob today
      = (db, [Error (lit "Email already registered.")]))
  /\ ~ In (Raised IntegrityError)
         (snd (signup_block db name email password confirm dob today)).
Proof.
  unfold signup_block, user_exists, add_user.
  destruct (Z.ltb_spec (calculate_age today dob) 25) as [Hage|Hage].
  - repeat split; try lia. intros [H|[]]. discriminate.
  - destruct (eqb password confirm) eqn:Hpw; cbn [negb].
    + apply eqb_eq in Hpw. destruct (email_taken db email) eqn:Ht.
      * repeat split; try tauto. intros [H|[]]. discriminate.
      * split; [tauto|]. split.
        -- intros _ _ Hex. apply email_taken_spec in Hex. congruence.
        -- intros [H|[]]. discriminate.
    + apply eqb_neq in Hpw. repeat split; try tauto.
      intros [H|[]]. discriminate.
Qed.

Lemma signup_checks_witness :
  signup_block (app_db (run (init flaky_model) one_upload)) (lit "Al")
    (lit "alice@example.org") (lit "x") (lit "x")
    (mkdate 1980 1 1) (mkdate 2024 3 1)
  = (app_db (run (init flaky_model) one_upload),
     [Error (lit "Email already registered.")]).
Proof.
  apply (proj1 (proj2 (signup_checks _ _ _ _ _ _ _))).
  - vm_compute. discriminate.
  - reflexivity.
  - eexists. split; [left; reflexivity|reflexivity].
Defined.



(** X8: there is no way out of a session: once logged in, every later
    state is logged in, as the same user id and under the same name. *)
Theorem session_is_kept (a : app_state) (evs : list event) :
  logged_in (app_session a) = true ->
  logged_in (app_session (run a evs)) = true
  /\ user_id (app_session (run a evs)) = user_id (app_session a)
  /\ name (app_session (run a evs)) = name (app_session a).
Proof.
  revert a. induction evs as [|e evs IH]; intros a Hl; simpl; [auto|].
  assert (H : logged_in (app_session (fst (step a e))) = true
              /\ user_id (app_session (fst (step a e)))
                 = user_id (app_session a)
              /\ name (app_session (fst (step a e))) = name (app_session a)).
  { destruct (step_cases a e)
      as [E|[(u & Hl' & _)|[(n & em & pw & d & db' & Hl' & _)
         |[(fn & t & _ & _ & E)|(id & t & m' & _ & _ & _ & E & _)]]]];
      try congruence; rewrite E; cbn; auto. }
  destruct H as (H1 & H2 & H3).
  destruct (IH _ H1) as (H4 & H5 & H6). unfold run in *.
  repeat split; congruence.
Qed.

Lemma session_is_kept_witness :
  name (app_session
          (run (run (init flaky_model) one_upload)
             [Login (lit "bob@example.org") (lit "pw");
              Browse (lit "a.pdf (by Alice)")]))
  = lit "Alice".
Proof.
  rewrite (proj2 (proj2 (session_is_kept (run (init flaky_model) one_upload)
                           [Login (lit "bob@example.org") (lit "pw");
                            Browse (lit "a.pdf (by Alice)")] eq_refl))).
  reflexivity.
Defined.



(* ------------------------------------------------------------------ *)
(** ** Reading files back *)

Lemma sorted_find_key {A : Type} (key : A -> Z) (l : list A) (x : A) :
  StronglySorted Z.lt (map key l) -> In x l ->
  filter (fun y => key y =? key x) l = [x].
Proof.
  intros Hs Hx. rewrite (sorted_filter_key _ key (key x) l Hs).
  assert (Hin : In x (filter (fun y => key y =? key x) l))
    by (apply filter_In; split; [assumption|apply Z.eqb_refl]).
  rewrite (sorted_filter_key _ key (key x) l Hs) in Hin.
  destruct (find _ l) as [y|]; [|destruct Hin].
  destruct Hin as [->|[]]. reflexivity.
Qed.

Lemma get_file_content_by_id_stored (db : database) (g : file_row) :
  wf_db db -> In g (files db) ->
  get_file_content_by_id db (f_id g) = Some (f_content g).
Proof.
  intros [_ Hs] Hg. unfold get_file_content_by_id.
  now rewrite (sorted_find_key f_id (files db) g Hs Hg).
Qed.

Lemma get_file_content_by_id_frame (db : database) (id : Z) o fn t :
  id <> snd (insert_file db o fn t) ->
  get_file_content_by_id (save_file db o fn t) id
  = get_file_content_by_id db id.
Proof.
  intros Hne. unfold get_file_content_by_id.
  rewrite save_file_files, filter_app. cbn [filter f_id].
  cbn [insert_file snd] in Hne.
  destruct (Z.eqb_spec (next_rowid (files_seq db) (map f_id (files db))) id);
    [congruence|].
  now rewrite app_nil_r.
Qed.

(** X10: in a store whose rowids are in order, looking up the id of any
    stored file gives that file's text, and it still does after any later
    [save_file]; in any store, a [save_file] changes the answer for no id
    but the one it assigns. *)
Theorem lookup_by_id (db : database) (g : file_row) :
  (forall id o fn t,
      id <> snd (insert_file db o fn t) ->
      get_file_content_by_id (save_file db o fn t) id
      = get_file_content_by_id db id)
  /\ (wf_db db -> In g (files db) ->
      get_file_content_by_id db (f_id g) = Some (f_content g)
      /\ forall o fn t,
           get_file_content_by_id (save_file db o fn t) (f_id g)
           = Some (f_content g)).
Proof.
  split; [intros; now apply get_file_content_by_id_frame|].
  intros Hwf Hg.
  split; [now apply get_file_content_by_id_stored|].
  intros o fn t. rewrite get_file_content_by_id_frame.
  - now apply get_file_content_by_id_stored.
  - cbn [insert_file snd].
    pose proof (next_rowid_fresh (files_seq db) (map f_id (files db))
                  (f_id g) (in_map f_id _ _ Hg)). lia.
Qed.

Lemma lookup_by_id_witness :
  get_file_content_by_id (app_db (run (init flaky_model) two_uploads)) 1
  = Some (lit "Call me Ishmael.").
Proof.
  apply (proj2 (lookup_by_id (app_db (run (init flaky_model) two_uploads))
                  (mkfile 1 (Some 1) (lit "a.pdf") (lit "Call me Ishmael.")))).
  - split; vm_compute; repeat constructor.
  - vm_compute. auto.
Defined.

(* ------------------------------------------------------------------ *)
(** ** The select box and the question *)






(** X12: a run of the script calls the model only for a question asked
    on the Q&A page, and then once: the log of prompts either stays as it
    was or gains the one prompt built from the question and from a text
    read from the store, the same text the session then caches; the
    model's own behaviour is never replaced. *)
Theorem model_called_only_on_ask (a : app_state) (e : event) :
  app_llm (fst (step a e)) = app_llm a
  \/ exists l q id t,
       e = Ask l q
       /\ get_file_content_by_id (app_db a) id = Some t
       /\ book_content (app_session (fst (step a e))) = Some t
       /\ app_llm (fst (step a e))
          = mkllm (respond (app_llm a)) (sent (app_llm a) ++ [prompt t q]).
Proof.
  destruct (step_cases a e)
    as [E|[(u & _ & _ & _ & E)|[(n & em & pw & d & db' & _ & _ & E)
       |[(fn & t & _ & _ & E)
        |(id & t & m' & _ & Hc & _ & E & [->|(l & q & -> & ->)])]]]];
    rewrite E; cbn [app_llm]; try now left.
  right. exists l, q, id, t. auto.
Qed.

Lemma mem_In (ks : list str) (y : str) :
  existsb (eqb y) ks = true <-> In y ks.
Proof.
  rewrite existsb_exists. split.
  - intros (x & Hx & E). apply eqb_eq in E. now subst.
  - intros H. exists y. split; [assumption|apply eqb_refl].
Qed.

Lemma filter_twice {A : Type} (p q : A -> bool) (l : list A) :
  filter p (filter q l) = filter (fun x => q x && p x) l.
Proof.
  induction l as [|x l IH]; simpl; [reflexivity|].
  destruct (q x); simpl; [|assumption].
  destruct (p x); now rewrite IH.
Qed.

Lemma filter_all {A : Type} (p : A -> bool) (l : list A) :
  (forall x, p x = true) -> filter p l = l.
Proof.
  intros H. induction l as [|x l IH]; simpl; [reflexivity|].
  now rewrite H, IH.
Qed.

(** Filling a dictionary adds the new keys after the old ones, each where
    it comes first. *)
Lemma fill_keys {V : Type} (items : list (str * V)) :
  forall d : PyDict.dict V,
    PyDict.keys (PyDict.fill items d)
    = PyDict.keys d
      ++ filter (fun y => negb (existsb (eqb y) (PyDict.keys d)))
           (first_occurrences (map fst items)).
Proof.
  induction items as [|[k v] items IH]; intros d.
  - simpl. now rewrite app_nil_r.
  - change (PyDict.fill ((k, v) :: items) d)
      with (PyDict.fill items (PyDict.set k v d)).
    rewrite IH. cbn [map fst first_occurrences filter].
    destruct (existsb (eqb k) (PyDict.keys d)) eqn:Hk; cbn [negb].
    + assert (Hin : In k (PyDict.keys d)) by now apply mem_In.
      rewrite keys_set_old by assumption. f_equal.
      rewrite filter_twice. apply filter_ext. intros y.
      destruct (eqb y k) eqn:E; [|reflexivity]. cbn [negb andb].
      apply eqb_eq in E. subst y. now rewrite Hk.
    + assert (Hn : ~ In k (PyDict.keys d)).
      { intros H. apply mem_In in H. congruence. }
      rewrite set_new by assumption.
      assert (Hkeys : PyDict.keys (d ++ [(k, v)]) = PyDict.keys d ++ [k])
        by (unfold PyDict.keys; now rewrite map_app).
      rewrite Hkeys, <- app_assoc. f_equal. cbn [List.app]. f_equal.
      rewrite filter_twice. apply filter_ext. intros y.
      rewrite existsb_app. cbn [existsb].
      rewrite orb_false_r, negb_orb. apply andb_comm.
Qed.

(** X13: whatever the store, the labels the select box offers are the
    labels of the rows of [get_all_files], newest first, each label once,
    at the place of its newest file; with rowids in order these are the
    labels of the stored files. *)
Theorem catalog_keys_first (db : database) :
  PyDict.keys (catalog db)
  = first_occurrences
      (map (fun r => label (l_fname r) (l_uname r)) (get_all_files db))
  /\ (wf_db db ->
      PyDict.keys (catalog db)
      = first_occurrences (map (label_of db) (rev (files db)))).
Proof.
  assert (H : PyDict.keys (catalog db)
              = first_occurrences
                  (map (fun r => label (l_fname r) (l_uname r))
                     (get_all_files db))).
  { unfold catalog, options, PyDict.comprehension.
    rewrite fill_keys, map_map. cbn [PyDict.keys map List.app].
    now rewrite filter_all. }
  split; [exact H|]. intros Hwf.
  rewrite H, get_all_files_rev, map_map by assumption. reflexivity.
Qed.

Lemma catalog_keys_first_witness :
  PyDict.keys (catalog (app_db (run (init flaky_model) two_uploads)))
  = [lit "a.pdf (by Alice)"].
Proof.
  rewrite (proj2 (catalog_keys_first _)).
  - reflexivity.
  - split; vm_compute; repeat constructor.
Defined.

(* ------------------------------------------------------------------ *)
(** ** Ages, guards and logging in *)

(** X14: the age never goes down as days pass, and of two people the
    one born earlier is never the younger: an applicant old enough today
    is old enough on every later day. *)
Theorem calculate_age_monotone (today1 today2 dob1 dob2 : date) :
  date_le today1 today2 -> date_le dob2 dob1 ->
  calculate_age today1 dob1 <= calculate_age today2 dob2.
Proof.
  unfold calculate_age, tuple_lt, date_le. cbn [fst snd]. intros H1 H2.
  destruct (Z.ltb_spec (month today1) (month dob1));
    destruct (Z.eqb_spec (month today1) (month dob1));
    destruct (Z.ltb_spec (day today1) (day dob1));
    destruct (Z.ltb_spec (month today2) (month dob2));
    destruct (Z.eqb_spec (month today2) (month dob2));
    destruct (Z.ltb_spec (day today2) (day dob2));
    cbn [orb andb]; lia.
Qed.

Lemma calculate_age_monotone_witness :
  calculate_age (mkdate 2024 3 1) (mkdate 1999 3 1)
  <= calculate_age (mkdate 2024 12 31) (mkdate 1999 2 28).
Proof.
  apply calculate_age_monotone; unfold date_le; cbn; lia.
Defined.

Lemma get_all_files_nonempty (db : database) :
  files db <> [] -> get_all_files db <> [].
Proof.
  destruct (files db) as [|f fs] eqn:Hf; [congruence|]. intros _ E.
  assert (Hr : exists r, In r (left_join (users db) f)).
  { unfold left_join. destruct (filter _ (users db)) as [|u ms].
    - eexists. now left.
    - eexists. now left. }
  destruct Hr as [r Hr].
  assert (Hin : In r (get_all_files db)).
  { unfold get_all_files. apply order_by_desc_In. rewrite Hf. simpl.
    apply in_or_app. now left. }
  rewrite E in Hin. destruct Hin.
Qed.

(** X15: the Q&A page turns away a session that is not logged in,
    touching nothing; for a logged-in session it reports that no books
    are uploaded exactly when the files table is empty. *)
Theorem qa_page_guards (a : app_state) (l : str) (q : option str) :
  (logged_in (app_session a) = false ->
   qa_page a l q
   = (a, [Warning (lit "Please log in first from 'Parental Control' page.")]))
  /\ (logged_in (app_session a) = true ->
      (files (app_db a) = []
       <-> qa_page a l q = (a, [Warning (lit "No books uploaded yet.")]))).
Proof.
  split; intros Hl; unfold qa_page; rewrite Hl; cbn [negb]; [reflexivity|].
  split.
  - intros Hf. unfold get_all_files. rewrite Hf. reflexivity.
  - intros H. destruct (files (app_db a)) as [|f fs] eqn:Hf; [reflexivity|].
    exfalso.
    assert (Hne : get_all_files (app_db a) <> [])
      by (apply get_all_files_nonempty; rewrite Hf; discriminate).
    destruct (get_all_files (app_db a)) as [|r rs]; [now elim Hne|].
    apply (f_equal snd) in H.
    destruct (PyDict.get l (options (r :: rs))) as [id|];
      [|discriminate H].
    unfold load_selected in H.
    destruct (get_file_content_by_id (app_db a) id) as [t|];
      cbn [truthy_opt negb] in H.
    + destruct (truthy t); cbn [negb] in H.
      * destruct q as [qu|]; [|discriminate H].
        unfold answer_block, generate_content in H.
        destruct (respond _ _ _); discriminate H.
      * vm_compute in H. discriminate H.
    + vm_compute in H. discriminate H.
Qed.

Lemma qa_page_guards_witness :
  qa_page (init flaky_model) (lit "a.pdf (by Alice)") None
  = (init flaky_model,
     [Warning (lit "Please log in first from 'Parental Control' page.")]).
Proof.
  apply (proj1 (qa_page_guards (init flaky_model) (lit "a.pdf (by Alice)")
                  None)).
  reflexivity.
Defined.

(** X16: a login with credentials that no user row carries changes
    nothing and reports invalid credentials; a login that succeeds has
    found a user row with exactly this email and password, the session
    takes that user's id and name, and the cache is preloaded with that
    user's last file, if any. *)
Theorem login_requires_credentials (db : database) (s : session)
  (email password : str) :
  ((forall u, In u (users db) -> u_email u = email ->
              u_password u <> password) ->
   login_block db s email password
   = (s, [Error (lit "Invalid credentials")]))
  /\ (logged_in s = false ->
      logged_in (fst (login_block db s email password)) = true ->
      exists u,
        In u (users db) /\ u_email u = email /\ u_password u = password
        /\ session_user (fst (login_block db s email password)) u
        /\ book_content (fst (login_block db s email password))
           = get_user_last_file_content db (Some (u_id u))).
Proof.
  destruct (login_block_cases db s email password)
    as [[_ E]|(u & Hu & He & Hp & _ & E)]; rewrite E; cbn [fst].
  - split; [reflexivity|]. congruence.
  - split.
    + intros H. elim (H u Hu He Hp).
    + intros _ _. exists u. repeat split; assumption || reflexivity.
Qed.

Lemma login_requires_credentials_witness :
  login_block (app_db (run (init flaky_model) one_upload)) fresh_session
    (lit "alice@example.org") (lit "wrong")
  = (fresh_session, [Error (lit "Invalid credentials")]).
Proof.
  apply (proj1 (login_requires_credentials _ _ _ _)).
  intros u [<-|[]] _. vm_compute. discriminate.
Defined.





(* ------------------------------------------------------------------ *)
(** ** Uploading, and the rowids of a running store *)



Lemma max_rowid_bound (ids : list Z) (m : Z) :
  0 <= m -> (forall i, In i ids -> i <= m) -> max_rowid ids <= m.
Proof.
  intros Hm. induction ids as [|i ids IH]; simpl; intros H; [assumption|].
  assert (i <= m) by (apply H; now left).
  assert (max_rowid ids <= m) by (apply IH; intros j Hj; apply H; now right).
  lia.
Qed.

Lemma next_rowid_consecutive (sq : Z) (ids : list Z) (n : nat) :
  ids = map Z.of_nat (seq 1 n) -> sq = Z.of_nat n ->
  next_rowid sq ids = Z.of_nat (S n)
  /\ ids ++ [next_rowid sq ids] = map Z.of_nat (seq 1 (S n)).
Proof.
  intros Hids Hsq.
  assert (E : next_rowid sq ids = Z.of_nat (S n)).
  { unfold next_rowid.
    assert (max_rowid ids <= Z.of_nat n).
    { apply max_rowid_bound; [lia|]. intros i Hi. rewrite Hids in Hi.
      apply in_map_iff in Hi as (k & <- & Hk). apply in_seq in Hk. lia. }
    pose proof (max_rowid_ge ids). assert (0 <= max_rowid ids).
    { clear. induction ids; simpl; lia. }
    lia. }
  split; [exact E|]. rewrite E, Hids, seq_S, map_app. reflexivity.
Qed.

(** X19: in every reachable state the rowids of each table are 1, 2, 3,
    ... in storage order, without gaps, and the table's sequence counter
    is its number of rows. *)
Theorem rowids_consecutive (a : app_state) :
  reachable a ->
  (map u_id (users (app_db a))
   = map Z.of_nat (seq 1 (List.length (users (app_db a))))
   /\ users_seq (app_db a) = Z.of_nat (List.length (users (app_db a))))
  /\ (map f_id (files (app_db a))
      = map Z.of_nat (seq 1 (List.length (files (app_db a))))
      /\ files_seq (app_db a) = Z.of_nat (List.length (files (app_db a)))).
Proof.
  induction 1 as [m|a e Ha [[IHu IHus] [IHf IHfs]]]; [repeat split|].
  destruct (step_db a e) as [E|[(n & em & pw & d & E)|(u & fn & t & _ & E)]].
  - rewrite E. auto.
  - unfold add_user in E. destruct (email_taken _ _); [discriminate|].
    injection E as E. rewrite <- E. cbn [users users_seq files files_seq].
    destruct (next_rowid_consecutive _ _ _ IHu IHus) as [E1 E2].
    split; [|auto].
    rewrite map_app, length_app. cbn [map u_id List.length].
    rewrite Nat.add_1_r. split; [exact E2|exact E1].
  - rewrite E. unfold save_file, insert_file.
    cbn [fst users users_seq files files_seq].
    destruct (next_rowid_consecutive _ _ _ IHf IHfs) as [E1 E2].
    split; [auto|].
    rewrite map_app, length_app. cbn [map f_id List.length].
    rewrite Nat.add_1_r. split; [exact E2|exact E1].
Qed.

Lemma rowids_consecutive_witness :
  map f_id (files (app_db (run (init flaky_model) two_uploads))) = [1; 2].
Proof.
  rewrite (proj1 (proj2 (rowids_consecutive _
                           (reachable_run _ two_uploads
                              (reach_init flaky_model))))).
  reflexivity.
Defined.
